(** * Hardware-parameter negotiation and duplex stream lifecycle

    A shallow embedding of the PCM part of the MOTU FireWire driver
    (sound/firewire/motu/motu-pcm.c) and of the rawmidi part of the Dice
    driver (sound/firewire/dice/dice-midi.c).

    C integers are mathematical integers ([Z]) with the wrap-around of
    their C type written out where an operation can leave the range.
    Handlers that mutate the device take the device state and return the
    C return value together with the new state. *)

From Stdlib Require Import ZArith List Bool Lia.
From Stdlib Require Import Permutation.
Import ListNotations.
Open Scope Z_scope.

(** ** C integer types *)

Definition UINT_MAX : Z := 4294967295.

(** Conversion to [unsigned int]: reduction modulo 2^32. *)
Definition to_uint (z : Z) : Z := z mod 4294967296.

(** Conversion to [int] (the value held by an [atomic_t]): two's
    complement wrap-around on 32 bits. *)
Definition to_int (z : Z) : Z := (z + 2147483648) mod 4294967296 - 2147483648.

Definition uint_range (z : Z) : Prop := 0 <= z <= UINT_MAX.
Definition uchar_range (z : Z) : Prop := 0 <= z <= 255.

(** Error numbers used by the handlers (returned negated, as in C). *)
Definition EIO : Z := 5.
Definition ENOMEM : Z := 12.
Definition EBUSY : Z := 16.
Definition EINVAL : Z := 22.

(** ** Intervals of the parameter framework *)

(** [struct snd_interval]: the driver initialises [.min], [.max] and
    [.integer]; the remaining bit-fields are zero-initialised. *)
Record snd_interval : Type := mk_interval {
  min : Z;
  max : Z;
  openmin : bool;
  openmax : bool;
  integer : bool;
  empty : bool
}.

(** Modelled from the spec: [snd_interval_test] is an inline helper of
    include/sound/pcm_params.h, which is outside the two files embedded here.
    The spec's Interval is the closed range [[min, max]]; a value lies in
    it when it is not below [min] and not above [max].  The two open-end
    flags of the structure exclude the corresponding end point; with both
    flags clear the test is exactly [min <= val <= max]. *)
Definition snd_interval_test (i : snd_interval) (val : Z) : bool :=
  negb ((min i >? val) || ((min i =? val) && openmin i) ||
        (max i <? val) || ((max i =? val) && openmax i)).

(** The closed interval [[lo, hi]] as a candidate handed in by the
    parameter framework. *)
Definition closed_interval (lo hi : Z) : snd_interval :=
  mk_interval lo hi false false false false.

(** [struct snd_pcm_hw_params], restricted to the two intervals the rules
    read and refine: [hw_param_interval(params, SNDRV_PCM_HW_PARAM_CHANNELS)]
    and [hw_param_interval(params, SNDRV_PCM_HW_PARAM_RATE)]. *)
Record snd_pcm_hw_params : Type := mk_hw_params {
  param_channels : snd_interval;
  param_rate : snd_interval
}.

(** ** Mode table *)

(** [struct snd_motu_packet_format], restricted to the two per-mode arrays
    of PCM chunk counts ([unsigned char] each). *)
Record snd_motu_packet_format : Type := mk_packet_format {
  fixed_part_pcm_chunks : list Z;
  differed_part_pcm_chunks : list Z
}.

(** The mode's total channel count as the spec defines it:
    [fixedChannels + variableChannels]. *)
Definition total_channels (formats : snd_motu_packet_format) (mode : nat) : Z :=
  nth mode (fixed_part_pcm_chunks formats) 0 +
  nth mode (differed_part_pcm_chunks formats) 0.

(** The value the loops store in the [unsigned int] local [pcm_channels]. *)
Definition pcm_channels (formats : snd_motu_packet_format) (mode : nat) : Z :=
  to_uint (nth mode (fixed_part_pcm_chunks formats) 0 +
           nth mode (differed_part_pcm_chunks formats) 0).

(** A mode table the loops can be run on: the rates are [unsigned int],
    the chunk counts are [unsigned char], and both chunk arrays have an
    entry for the mode [i / 2] of every rate index [i]. *)
Definition wf_clock_rates (clock_rates : list Z) : Prop :=
  Forall uint_range clock_rates.

Definition wf_formats (clock_rates : list Z) (formats : snd_motu_packet_format) : Prop :=
  Forall uchar_range (fixed_part_pcm_chunks formats) /\
  Forall uchar_range (differed_part_pcm_chunks formats) /\
  (length clock_rates <= 2 * length (fixed_part_pcm_chunks formats))%nat /\
  (length clock_rates <= 2 * length (differed_part_pcm_chunks formats))%nat.

(** ** Constraint solver (motu-pcm.c, lines 12-70) *)

Section ConstraintSolver.

(** [snd_motu_clock_rates], the table of rates shared by all models; the
    rate at index [i] belongs to mode [i / 2]. *)
Variable snd_motu_clock_rates : list Z.

(** [snd_interval_refine] of the parameter framework: it narrows the first
    interval by the second and returns a status together with the narrowed
    interval. *)
Variable snd_interval_refine : snd_interval -> snd_interval -> Z * snd_interval.

(** The accumulator both rules start from:
    [{ .min = UINT_MAX, .max = 0, .integer = 1 }]. *)
Definition empty_sentinel : snd_interval :=
  mk_interval UINT_MAX 0 false false true false.

(** One iteration of the loop of [motu_rate_constraint]. *)
Definition motu_rate_constraint_step (formats : snd_motu_packet_format)
  (c : snd_interval) (rates : snd_interval) (i : nat) : snd_interval :=
  let rate := nth i snd_motu_clock_rates 0 in
  let mode := (i / 2)%nat in
  let pcm_channels := pcm_channels formats mode in
  if negb (snd_interval_test c pcm_channels) then rates
  else mk_interval (Z.min (min rates) rate) (Z.max (max rates) rate)
         (openmin rates) (openmax rates) (integer rates) (empty rates).

(** The local [rates] of [motu_rate_constraint] when the loop is left. *)
Definition motu_rate_constraint_loop (formats : snd_motu_packet_format)
  (c : snd_interval) : snd_interval :=
  fold_left (motu_rate_constraint_step formats c)
    (seq 0 (length snd_motu_clock_rates)) empty_sentinel.

Definition motu_rate_constraint (formats : snd_motu_packet_format)
  (params : snd_pcm_hw_params) : Z * snd_pcm_hw_params :=
  let c := param_channels params in
  let r := param_rate params in
  let rates := motu_rate_constraint_loop formats c in
  let '(ret, r') := snd_interval_refine r rates in
  (ret, mk_hw_params (param_channels params) r').

(** One iteration of the loop of [motu_channels_constraint]. *)
Definition motu_channels_constraint_step (formats : snd_motu_packet_format)
  (r : snd_interval) (channels : snd_interval) (i : nat) : snd_interval :=
  let rate := nth i snd_motu_clock_rates 0 in
  let mode := (i / 2)%nat in
  if negb (snd_interval_test r rate) then channels
  else
    let pcm_channels := pcm_channels formats mode in
    mk_interval (Z.min (min channels) pcm_channels)
      (Z.max (max channels) pcm_channels)
      (openmin channels) (openmax channels) (integer channels) (empty channels).

(** The local [channels] of [motu_channels_constraint] when the loop is
    left. *)
Definition motu_channels_constraint_loop (formats : snd_motu_packet_format)
  (r : snd_interval) : snd_interval :=
  fold_left (motu_channels_constraint_step formats r)
    (seq 0 (length snd_motu_clock_rates)) empty_sentinel.

Definition motu_channels_constraint (formats : snd_motu_packet_format)
  (params : snd_pcm_hw_params) : Z * snd_pcm_hw_params :=
  let r := param_rate params in
  let c := param_channels params in
  let channels := motu_channels_constraint_loop formats r in
  let '(ret, c') := snd_interval_refine c channels in
  (ret, mk_hw_params c' (param_rate params)).

End ConstraintSolver.

(** Selecting fold of a running minimum and maximum over a list of
    indices: the shape shared by the three loops over the mode table. *)
Definition fold_min_max (sel : nat -> bool) (val : nat -> Z)
  (l : list nat) (acc : Z * Z) : Z * Z :=
  fold_left
    (fun a i => if sel i then (Z.min (fst a) (val i), Z.max (snd a) (val i)) else a)
    l acc.

(** A (mode, rate) pair, named by its index [i] in the rate table, takes
    part in the rate rule when the total channel count of its mode lies in
    the candidate channel interval [c]. *)
Definition rate_pair_qualifies (clock_rates : list Z)
  (formats : snd_motu_packet_format) (c : snd_interval) (i : nat) : Prop :=
  (i < length clock_rates)%nat /\
  snd_interval_test c (total_channels formats (i / 2)) = true.

(** A (mode, rate) pair takes part in the channel rule when its rate lies
    in the candidate rate interval [r]. *)
Definition channels_pair_qualifies (clock_rates : list Z)
  (r : snd_interval) (i : nat) : Prop :=
  (i < length clock_rates)%nat /\
  snd_interval_test r (nth i clock_rates 0) = true.

(** The mode table of the spec's concrete scenario. *)
Definition scenario_clock_rates : list Z := [44100; 48000; 88200; 96000].
Definition scenario_formats : snd_motu_packet_format :=
  mk_packet_format [2; 2] [0; 2].

(** ** Capability window (motu-pcm.c, lines 72-97) *)

(** [struct snd_pcm_hardware], restricted to the fields the driver
    writes. *)
Record snd_pcm_hardware : Type := mk_hardware {
  hw_formats : Z;
  hw_rates : Z;
  hw_rate_min : Z;
  hw_rate_max : Z;
  hw_channels_min : Z;
  hw_channels_max : Z
}.

Section CapabilityWindow.

Variable snd_motu_clock_rates : list Z.

(** [snd_pcm_rate_to_rate_bit] of the host framework: the bit of the
    supported-rates mask that stands for a rate. *)
Variable snd_pcm_rate_to_rate_bit : Z -> Z.

(** [snd_pcm_limit_hw_rates] of the host framework, run on the hardware
    description once the mask is complete. *)
Variable snd_pcm_limit_hw_rates : snd_pcm_hardware -> snd_pcm_hardware.

(** One iteration of the loop of [limit_channels_and_rates]. *)
Definition limit_channels_and_rates_step (formats : snd_motu_packet_format)
  (hw : snd_pcm_hardware) (i : nat) : snd_pcm_hardware :=
  let rate := nth i snd_motu_clock_rates 0 in
  let mode := (i / 2)%nat in
  let pcm_channels := pcm_channels formats mode in
  if pcm_channels =? 0 then hw
  else mk_hardware (hw_formats hw)
         (Z.lor (hw_rates hw) (snd_pcm_rate_to_rate_bit rate))
         (hw_rate_min hw) (hw_rate_max hw)
         (Z.min (hw_channels_min hw) pcm_channels)
         (Z.max (hw_channels_max hw) pcm_channels).

(** The hardware description when the loop is left, before the framework
    derives the rate bounds from the mask. *)
Definition limit_channels_and_rates_loop (formats : snd_motu_packet_format)
  (hw : snd_pcm_hardware) : snd_pcm_hardware :=
  fold_left (limit_channels_and_rates_step formats)
    (seq 0 (length snd_motu_clock_rates))
    (mk_hardware (hw_formats hw) (hw_rates hw) (hw_rate_min hw) (hw_rate_max hw)
       UINT_MAX 0).

Definition limit_channels_and_rates (formats : snd_motu_packet_format)
  (hw : snd_pcm_hardware) : snd_pcm_hardware :=
  snd_pcm_limit_hw_rates (limit_channels_and_rates_loop formats hw).

End CapabilityWindow.

(** Index [i] of the rate table names an entry with non-zero total channel
    count. *)
Definition entry_has_channels (clock_rates : list Z)
  (formats : snd_motu_packet_format) (i : nat) : Prop :=
  (i < length clock_rates)%nat /\ total_channels formats (i / 2) <> 0.

(** Modelled from the spec: [snd_pcm_rate_to_rate_bit] and
    [snd_pcm_limit_hw_rates] belong to the host framework and are outside
    the two files embedded here.  The spec's capability window exposes a bitmask
    of the discrete supported rates together with the overall minimum and
    maximum rate.  In this instance every rate of the framework's table of
    known rates owns one bit of the mask (an unknown rate gets the
    catch-all top bit), and the rate bounds become the smallest and the
    largest known rate whose bit is set.  The instance serves to run the
    handlers on concrete inputs; the general statements quantify over the
    helpers. *)
Definition snd_pcm_known_rates : list Z :=
  [5512; 8000; 11025; 16000; 22050; 32000; 44100; 48000; 64000; 88200;
   96000; 176400; 192000].

Fixpoint rate_bit_from (known : list Z) (bit : Z) (rate : Z) : Z :=
  match known with
  | [] => 2147483648
  | k :: known' => if k =? rate then bit else rate_bit_from known' (2 * bit) rate
  end.

Definition known_rate_to_rate_bit (rate : Z) : Z :=
  rate_bit_from snd_pcm_known_rates 1 rate.

Definition limit_hw_rates_by_mask (hw : snd_pcm_hardware) : snd_pcm_hardware :=
  let present :=
    filter (fun k => negb (Z.land (hw_rates hw) (known_rate_to_rate_bit k) =? 0))
      snd_pcm_known_rates in
  match present with
  | [] => hw
  | k :: _ =>
      mk_hardware (hw_formats hw) (hw_rates hw) k (last present k)
        (hw_channels_min hw) (hw_channels_max hw)
  end.

(** ** Dice rawmidi handlers (dice-midi.c) *)

Module Dice.

(** [struct snd_dice], restricted to the exclusivity lock, the counter of
    active substreams ([atomic_t]) and the state of the duplex stream. *)
Record snd_dice : Type := mk_dice {
  dev_lock : bool;
  substreams_counter : Z;
  running : bool;
  committed_rate : Z
}.

Definition atomic_inc (dice : snd_dice) : snd_dice :=
  mk_dice (dev_lock dice) (to_int (substreams_counter dice + 1))
    (running dice) (committed_rate dice).

Definition atomic_dec (dice : snd_dice) : snd_dice :=
  mk_dice (dev_lock dice) (to_int (substreams_counter dice - 1))
    (running dice) (committed_rate dice).

(** The stream functions of dice-stream.c that the handlers call. *)
Record stream_ops : Type := mk_stream_ops {
  snd_dice_stream_lock_try : snd_dice -> Z * snd_dice;
  snd_dice_stream_lock_release : snd_dice -> snd_dice;
  snd_dice_stream_start_duplex : snd_dice -> Z -> Z * snd_dice;
  snd_dice_stream_stop_duplex : snd_dice -> snd_dice
}.

Section Handlers.

Variable ops : stream_ops.

Definition capture_open (dice : snd_dice) : Z * snd_dice :=
  let '(err, dice) := snd_dice_stream_lock_try ops dice in
  if err <? 0 then (err, dice)
  else
    let dice := atomic_inc dice in
    let '(err, dice) := snd_dice_stream_start_duplex ops dice 0 in
    if err <? 0 then (err, snd_dice_stream_lock_release ops dice)
    else (err, dice).

Definition playback_open (dice : snd_dice) : Z * snd_dice :=
  let '(err, dice) := snd_dice_stream_lock_try ops dice in
  if err <? 0 then (err, dice)
  else
    let dice := atomic_inc dice in
    let '(err, dice) := snd_dice_stream_start_duplex ops dice 0 in
    if err <? 0 then (err, snd_dice_stream_lock_release ops dice)
    else (err, dice).

Definition capture_close (dice : snd_dice) : Z * snd_dice :=
  let dice := atomic_dec dice in
  let dice := snd_dice_stream_stop_duplex ops dice in
  let dice := snd_dice_stream_lock_release ops dice in
  (0, dice).

Definition playback_close (dice : snd_dice) : Z * snd_dice :=
  let dice := atomic_dec dice in
  let dice := snd_dice_stream_stop_duplex ops dice in
  let dice := snd_dice_stream_lock_release ops dice in
  (0, dice).

End Handlers.

(** Modelled from the spec: [snd_dice_stream_lock_try] is defined in
    dice-stream.c, which is outside the two files embedded here.  Spec 4.4,
    [tryAcquire]: at most one token is outstanding; an attempt while the
    token is out fails at once with Busy, otherwise the token is handed
    out. *)
Definition try_acquire (dice : snd_dice) : Z * snd_dice :=
  if dev_lock dice then (- EBUSY, dice)
  else (0, mk_dice true (substreams_counter dice) (running dice)
             (committed_rate dice)).

(** Modelled from the spec: [snd_dice_stream_lock_release] (dice-stream.c,
    not embedded here).  Spec 4.4, [release]: the token is given back. *)
Definition release (dice : snd_dice) : snd_dice :=
  mk_dice false (substreams_counter dice) (running dice) (committed_rate dice).

(** Modelled from the spec: [snd_dice_stream_start_duplex] (dice-stream.c,
    not embedded here).  Spec 4.5, [ensureStarted]: a no-op success when the
    stream is running; otherwise the transport is asked to bring up both
    directions at the requested rate, success sets [running] and the
    committed rate, failure leaves the state unchanged and propagates the
    transport's error.  [transport_start] is the transport provider's
    [startDuplex]; a negative result is an error. *)
Definition ensure_started (transport_start : Z -> Z) (dice : snd_dice)
  (rate : Z) : Z * snd_dice :=
  if running dice then (0, dice)
  else
    let err := transport_start rate in
    if err <? 0 then (err, dice)
    else (0, mk_dice (dev_lock dice) (substreams_counter dice) true rate).

(** Modelled from the spec: [snd_dice_stream_stop_duplex] (dice-stream.c,
    not embedded here).  Spec 4.5, [ensureStopped]: it decrements nothing; it
    inspects the counter and only when that is zero tears down both
    directions and clears [running]. *)
Definition ensure_stopped (dice : snd_dice) : snd_dice :=
  if substreams_counter dice =? 0
  then mk_dice (dev_lock dice) (substreams_counter dice) false
         (committed_rate dice)
  else dice.

Definition spec_stream_ops (transport_start : Z -> Z) : stream_ops :=
  mk_stream_ops try_acquire release (ensure_started transport_start)
    ensure_stopped.

(** The two rawmidi directions, to name a sequence of closes. *)
Inductive direction : Type := Capture | Playback.

Definition close (ops : stream_ops) (dir : direction) (dice : snd_dice) : snd_dice :=
  match dir with
  | Capture => snd (capture_close ops dice)
  | Playback => snd (playback_close ops dice)
  end.

End Dice.

(** ** MOTU PCM handlers (motu-pcm.c, lines 99-289) *)

Module Motu.

Inductive snd_pcm_stream : Type :=
| SNDRV_PCM_STREAM_PLAYBACK
| SNDRV_PCM_STREAM_CAPTURE.

(** [runtime->status->state]; the driver compares it with
    [SNDRV_PCM_STATE_OPEN] only. *)
Inductive snd_pcm_state : Type :=
| SNDRV_PCM_STATE_OPEN
| SNDRV_PCM_STATE_SETUP
| SNDRV_PCM_STATE_PREPARED
| SNDRV_PCM_STATE_RUNNING
| SNDRV_PCM_STATE_XRUN
| SNDRV_PCM_STATE_DRAINING
| SNDRV_PCM_STATE_PAUSED
| SNDRV_PCM_STATE_SUSPENDED
| SNDRV_PCM_STATE_DISCONNECTED.

Definition is_state_open (s : snd_pcm_state) : bool :=
  match s with
  | SNDRV_PCM_STATE_OPEN => true
  | _ => false
  end.

(** [enum snd_motu_clock_source]; the driver tells the internal source
    from all the others, which are kept by their enumerator. *)
Inductive snd_motu_clock_source : Type :=
| SND_MOTU_CLOCK_SOURCE_INTERNAL
| SND_MOTU_CLOCK_SOURCE_OTHER (enumerator : Z).

Definition is_internal (src : snd_motu_clock_source) : bool :=
  match src with
  | SND_MOTU_CLOCK_SOURCE_INTERNAL => true
  | SND_MOTU_CLOCK_SOURCE_OTHER _ => false
  end.

(** [struct snd_pcm_substream] with the parts of its runtime the handlers
    touch. *)
Record snd_pcm_substream : Type := mk_substream {
  stream : snd_pcm_stream;
  state : snd_pcm_state;
  rate : Z;
  hw : snd_pcm_hardware
}.

Definition set_hw (substream : snd_pcm_substream) (h : snd_pcm_hardware)
  : snd_pcm_substream :=
  mk_substream (stream substream) (state substream) (rate substream) h.

(** [struct snd_motu]: the exclusivity lock, the mutex, the counter of
    active substreams ([unsigned int]), the state of the duplex stream,
    whether a PCM substream is attached to either stream
    ([amdtp_stream_pcm_running]) and the cached packet formats. *)
Record snd_motu : Type := mk_motu {
  dev_lock : bool;
  mutex : bool;
  substreams_counter : Z;
  running : bool;
  committed_rate : Z;
  tx_pcm_running : bool;
  rx_pcm_running : bool;
  tx_packet_formats : snd_motu_packet_format;
  rx_packet_formats : snd_motu_packet_format
}.

Definition set_mutex (motu : snd_motu) (held : bool) : snd_motu :=
  mk_motu (dev_lock motu) held (substreams_counter motu) (running motu)
    (committed_rate motu) (tx_pcm_running motu) (rx_pcm_running motu)
    (tx_packet_formats motu) (rx_packet_formats motu).

Definition mutex_lock (motu : snd_motu) : snd_motu := set_mutex motu true.
Definition mutex_unlock (motu : snd_motu) : snd_motu := set_mutex motu false.

Definition set_substreams_counter (motu : snd_motu) (n : Z) : snd_motu :=
  mk_motu (dev_lock motu) (mutex motu) n (running motu)
    (committed_rate motu) (tx_pcm_running motu) (rx_pcm_running motu)
    (tx_packet_formats motu) (rx_packet_formats motu).

Definition set_dev_lock (motu : snd_motu) (held : bool) : snd_motu :=
  mk_motu held (mutex motu) (substreams_counter motu) (running motu)
    (committed_rate motu) (tx_pcm_running motu) (rx_pcm_running motu)
    (tx_packet_formats motu) (rx_packet_formats motu).

Definition set_running (motu : snd_motu) (on : bool) (r : Z) : snd_motu :=
  mk_motu (dev_lock motu) (mutex motu) (substreams_counter motu) on r
    (tx_pcm_running motu) (rx_pcm_running motu)
    (tx_packet_formats motu) (rx_packet_formats motu).

(** The stream functions of motu-stream.c that the handlers call. *)
Record stream_ops : Type := mk_stream_ops {
  snd_motu_stream_lock_try : snd_motu -> Z * snd_motu;
  snd_motu_stream_lock_release : snd_motu -> snd_motu;
  snd_motu_stream_start_duplex : snd_motu -> Z -> Z * snd_motu;
  snd_motu_stream_stop_duplex : snd_motu -> snd_motu
}.

(** The two rules [init_hw_info] registers, named by the parameter they
    refine. *)
Inductive hw_rule : Type :=
| SNDRV_PCM_HW_PARAM_RATE
| SNDRV_PCM_HW_PARAM_CHANNELS.

(** Everything else the handlers consume: tables and constants of headers
    that are not embedded here, the host framework, the packet transport and the
    protocol's clock queries.  A query returns its C result together with
    the value it stores through its out-pointer. *)
Record collaborators : Type := mk_collaborators {
  snd_motu_clock_rates : list Z;
  SNDRV_PCM_FMTBIT_S32 : Z;
  snd_pcm_rate_to_rate_bit : Z -> Z;
  snd_pcm_limit_hw_rates : snd_pcm_hardware -> snd_pcm_hardware;
  snd_pcm_hw_rule_add : hw_rule -> Z;
  amdtp_motu_add_pcm_hw_constraints :
    snd_pcm_stream -> snd_pcm_hardware -> Z * snd_pcm_hardware;
  snd_motu_stream_cache_packet_formats : snd_motu -> Z * snd_motu;
  get_clock_source : snd_motu -> Z * snd_motu_clock_source;
  get_clock_rate : snd_motu -> Z * Z;
  snd_pcm_lib_alloc_vmalloc_buffer : snd_pcm_substream -> snd_pcm_hw_params -> Z;
  snd_pcm_lib_free_vmalloc_buffer : snd_pcm_substream -> Z;
  amdtp_stream_pcm_prepare : snd_pcm_stream -> snd_motu -> snd_motu
}.

Section Handlers.

Variable ops : stream_ops.
Variable env : collaborators.

Definition init_hw_info (motu : snd_motu) (substream : snd_pcm_substream)
  : Z * snd_pcm_substream :=
  let h := hw substream in
  let '(h, formats) :=
    match stream substream with
    | SNDRV_PCM_STREAM_CAPTURE =>
        (mk_hardware (SNDRV_PCM_FMTBIT_S32 env) (hw_rates h) (hw_rate_min h)
           (hw_rate_max h) (hw_channels_min h) (hw_channels_max h),
         tx_packet_formats motu)
    | SNDRV_PCM_STREAM_PLAYBACK =>
        (mk_hardware (SNDRV_PCM_FMTBIT_S32 env) (hw_rates h) (hw_rate_min h)
           (hw_rate_max h) (hw_channels_min h) (hw_channels_max h),
         rx_packet_formats motu)
    end in
  let h := limit_channels_and_rates (snd_motu_clock_rates env)
             (snd_pcm_rate_to_rate_bit env) (snd_pcm_limit_hw_rates env)
             formats h in
  let err := snd_pcm_hw_rule_add env SNDRV_PCM_HW_PARAM_RATE in
  if err <? 0 then (err, set_hw substream h)
  else
    let err := snd_pcm_hw_rule_add env SNDRV_PCM_HW_PARAM_CHANNELS in
    if err <? 0 then (err, set_hw substream h)
    else
      let '(err, h) :=
        amdtp_motu_add_pcm_hw_constraints env (stream substream) h in
      (err, set_hw substream h).

(** The label [err_locked] of [pcm_open]. *)
Definition err_locked (err : Z) (substream : snd_pcm_substream)
  (motu : snd_motu) : Z * snd_pcm_substream * snd_motu :=
  let motu := mutex_unlock motu in
  let motu := snd_motu_stream_lock_release ops motu in
  (err, substream, motu).

Definition pcm_open (substream : snd_pcm_substream) (motu : snd_motu)
  : Z * snd_pcm_substream * snd_motu :=
  let '(err, motu) := snd_motu_stream_lock_try ops motu in
  if err <? 0 then (err, substream, motu)
  else
    let motu := mutex_lock motu in
    let '(err, motu) := snd_motu_stream_cache_packet_formats env motu in
    if err <? 0 then err_locked err substream motu
    else
      let '(err, substream) := init_hw_info motu substream in
      if err <? 0 then err_locked err substream motu
      else
        let '(err, src) := get_clock_source env motu in
        if err <? 0 then err_locked err substream motu
        else if negb (is_internal src) || tx_pcm_running motu
                || rx_pcm_running motu
        then
          let '(err, rate) := get_clock_rate env motu in
          if err <? 0 then err_locked err substream motu
          else
            let h := hw substream in
            let substream :=
              set_hw substream
                (mk_hardware (hw_formats h) (hw_rates h) rate rate
                   (hw_channels_min h) (hw_channels_max h)) in
            (err, substream, mutex_unlock motu)
        else (err, substream, mutex_unlock motu).

Definition pcm_close (substream : snd_pcm_substream) (motu : snd_motu)
  : Z * snd_motu :=
  (0, snd_motu_stream_lock_release ops motu).

Definition capture_hw_params (substream : snd_pcm_substream)
  (hw_params : snd_pcm_hw_params) (motu : snd_motu) : Z * snd_motu :=
  let err := snd_pcm_lib_alloc_vmalloc_buffer env substream hw_params in
  if err <? 0 then (err, motu)
  else if is_state_open (state substream)
  then
    let motu := mutex_lock motu in
    let motu := set_substreams_counter motu
                  (to_uint (substreams_counter motu + 1)) in
    (0, mutex_unlock motu)
  else (0, motu).

Definition playback_hw_params (substream : snd_pcm_substream)
  (hw_params : snd_pcm_hw_params) (motu : snd_motu) : Z * snd_motu :=
  let err := snd_pcm_lib_alloc_vmalloc_buffer env substream hw_params in
  if err <? 0 then (err, motu)
  else if is_state_open (state substream)
  then
    let motu := mutex_lock motu in
    let motu := set_substreams_counter motu
                  (to_uint (substreams_counter motu + 1)) in
    (0, mutex_unlock motu)
  else (0, motu).

Definition capture_hw_free (substream : snd_pcm_substream) (motu : snd_motu)
  : Z * snd_motu :=
  let motu := mutex_lock motu in
  let motu :=
    if negb (is_state_open (state substream))
    then set_substreams_counter motu (to_uint (substreams_counter motu - 1))
    else motu in
  let motu := snd_motu_stream_stop_duplex ops motu in
  let motu := mutex_unlock motu in
  (snd_pcm_lib_free_vmalloc_buffer env substream, motu).

Definition playback_hw_free (substream : snd_pcm_substream) (motu : snd_motu)
  : Z * snd_motu :=
  let motu := mutex_lock motu in
  let motu :=
    if negb (is_state_open (state substream))
    then set_substreams_counter motu (to_uint (substreams_counter motu - 1))
    else motu in
  let motu := snd_motu_stream_stop_duplex ops motu in
  let motu := mutex_unlock motu in
  (snd_pcm_lib_free_vmalloc_buffer env substream, motu).

Definition capture_prepare (substream : snd_pcm_substream) (motu : snd_motu)
  : Z * snd_motu :=
  let motu := mutex_lock motu in
  let '(err, motu) := snd_motu_stream_start_duplex ops motu (rate substream) in
  let motu := mutex_unlock motu in
  let motu :=
    if 0 <=? err
    then amdtp_stream_pcm_prepare env SNDRV_PCM_STREAM_CAPTURE motu
    else motu in
  (0, motu).

Definition playback_prepare (substream : snd_pcm_substream) (motu : snd_motu)
  : Z * snd_motu :=
  let motu := mutex_lock motu in
  let '(err, motu) := snd_motu_stream_start_duplex ops motu (rate substream) in
  let motu := mutex_unlock motu in
  let motu :=
    if 0 <=? err
    then amdtp_stream_pcm_prepare env SNDRV_PCM_STREAM_PLAYBACK motu
    else motu in
  (err, motu).

(** The [hw_params] and [hw_free] callbacks of the two directions, chosen
    by the direction of the substream as [snd_motu_create_pcm_devices]
    registers them. *)
Definition hw_params_op (substream : snd_pcm_substream)
  (hw_params : snd_pcm_hw_params) (motu : snd_motu) : Z * snd_motu :=
  match stream substream with
  | SNDRV_PCM_STREAM_CAPTURE => capture_hw_params substream hw_params motu
  | SNDRV_PCM_STREAM_PLAYBACK => playback_hw_params substream hw_params motu
  end.

Definition hw_free_op (substream : snd_pcm_substream) (motu : snd_motu)
  : Z * snd_motu :=
  match stream substream with
  | SNDRV_PCM_STREAM_CAPTURE => capture_hw_free substream motu
  | SNDRV_PCM_STREAM_PLAYBACK => playback_hw_free substream motu
  end.

End Handlers.

(** Modelled from the spec: [snd_motu_stream_lock_try] is defined in
    motu-stream.c, which is outside the two files embedded here.  Spec 4.4,
    [tryAcquire]: at most one token is outstanding; an attempt while the
    token is out fails at once with Busy, otherwise the token is handed
    out. *)
Definition try_acquire (motu : snd_motu) : Z * snd_motu :=
  if dev_lock motu then (- EBUSY, motu) else (0, set_dev_lock motu true).

(** Modelled from the spec: [snd_motu_stream_lock_release] (motu-stream.c,
    not embedded here).  Spec 4.4, [release]: the token is given back. *)
Definition release (motu : snd_motu) : snd_motu := set_dev_lock motu false.

(** Modelled from the spec: [snd_motu_stream_start_duplex] (motu-stream.c,
    not embedded here).  Spec 4.5, [ensureStarted]: a no-op success when the
    stream is running; otherwise the transport is asked to bring up both
    directions at the requested rate, success sets [running] and the
    committed rate, failure leaves the state unchanged and propagates the
    transport's error.  [transport_start] is the transport provider's
    [startDuplex]; a negative result is an error. *)
Definition ensure_started (transport_start : Z -> Z) (motu : snd_motu)
  (r : Z) : Z * snd_motu :=
  if running motu then (0, motu)
  else
    let err := transport_start r in
    if err <? 0 then (err, motu) else (0, set_running motu true r).

(** Modelled from the spec: [snd_motu_stream_stop_duplex] (motu-stream.c,
    not embedded here).  Spec 4.5, [ensureStopped]: it decrements nothing; it
    inspects the counter and only when that is zero tears down both
    directions and clears [running]. *)
Definition ensure_stopped (motu : snd_motu) : snd_motu :=
  if substreams_counter motu =? 0
  then set_running motu false (committed_rate motu)
  else motu.

Definition spec_stream_ops (transport_start : Z -> Z) : stream_ops :=
  mk_stream_ops try_acquire release (ensure_started transport_start)
    ensure_stopped.

End Motu.

(** ** Request sequences on an exclusivity lock *)

(** What openers and closers ask of the lock, and the results a sequence
    of such requests gets, one result per request ([release] returns
    nothing; 0 stands in its place). *)
Inductive lock_request : Type := TryAcquire | Release.

Section LockRun.

Context {device : Type}.
Variable acquire : device -> Z * device.
Variable give_back : device -> device.

Definition lock_step (req : lock_request) (d : device) : Z * device :=
  match req with
  | TryAcquire => acquire d
  | Release => (0, give_back d)
  end.

Fixpoint lock_run (reqs : list lock_request) (d : device) : list Z :=
  match reqs with
  | [] => []
  | req :: reqs' =>
      let '(res, d') := lock_step req d in
      res :: lock_run reqs' d'
  end.

Fixpoint lock_run_state (reqs : list lock_request) (d : device) : device :=
  match reqs with
  | [] => d
  | req :: reqs' => lock_run_state reqs' (snd (lock_step req d))
  end.

End LockRun.

(** ** Creation of the Dice rawmidi device (dice-midi.c, lines 123-176) *)

Module DiceMidi.

(** The per-mode numbers of MIDI ports kept in [struct snd_dice]
    ([unsigned int] arrays of three entries, one per rate mode). *)
Record snd_dice_ports : Type := mk_ports {
  tx_midi_ports : list Z;
  rx_midi_ports : list Z
}.

(** The two operation tables of the file. *)
Inductive snd_rawmidi_ops : Type := capture_ops | playback_ops.

(** [struct snd_rawmidi], restricted to [info_flags] and to the operations
    registered for the substreams of its input and of its output stream
    ([snd_rawmidi_set_ops]).  The names written with [snprintf] are left
    out. *)
Record snd_rawmidi : Type := mk_rawmidi {
  info_flags : Z;
  input_ops : option snd_rawmidi_ops;
  output_ops : option snd_rawmidi_ops
}.

(** Ports that can be handed to the function without the [unsigned int]
    sum of the two maxima wrapping around: three entries per direction,
    each a non-negative [int]. *)
Definition wf_ports (dice : snd_dice_ports) : Prop :=
  length (tx_midi_ports dice) = 3%nat /\
  length (rx_midi_ports dice) = 3%nat /\
  Forall (fun p => 0 <= p <= 2147483647) (tx_midi_ports dice) /\
  Forall (fun p => 0 <= p <= 2147483647) (rx_midi_ports dice).

Section Create.

(** The flag bits of include/uapi/sound/asound.h. *)
Variable SNDRV_RAWMIDI_INFO_OUTPUT : Z.
Variable SNDRV_RAWMIDI_INFO_INPUT : Z.
Variable SNDRV_RAWMIDI_INFO_DUPLEX : Z.

(** [snd_rawmidi_new] of the host framework, asked for a device with the
    given numbers of output and of input substreams (in this order); it
    returns its result and the new device. *)
Variable snd_rawmidi_new : Z -> Z -> Z * snd_rawmidi.

(** One iteration of the loop over the three modes. *)
Definition midi_ports_step (dice : snd_dice_ports) (acc : Z * Z) (i : nat)
  : Z * Z :=
  let '(midi_in_ports, midi_out_ports) := acc in
  (Z.max (nth i (tx_midi_ports dice) 0) midi_in_ports,
   Z.max (nth i (rx_midi_ports dice) 0) midi_out_ports).

(** [midi_in_ports] and [midi_out_ports] when the loop is left. *)
Definition midi_ports (dice : snd_dice_ports) : Z * Z :=
  fold_left (midi_ports_step dice) (seq 0 3) (0, 0).

(** The function returns its C result and the device it registered, if
    any. *)
Definition snd_dice_create_midi (dice : snd_dice_ports)
  : Z * option snd_rawmidi :=
  let '(midi_in_ports, midi_out_ports) := midi_ports dice in
  if to_uint (midi_in_ports + midi_out_ports) =? 0 then (0, None)
  else
    let '(err, rmidi) := snd_rawmidi_new midi_out_ports midi_in_ports in
    if err <? 0 then (err, None)
    else
      let rmidi :=
        if 0 <? midi_in_ports
        then mk_rawmidi (Z.lor (info_flags rmidi) SNDRV_RAWMIDI_INFO_INPUT)
               (Some capture_ops) (output_ops rmidi)
        else rmidi in
      let rmidi :=
        if 0 <? midi_out_ports
        then mk_rawmidi (Z.lor (info_flags rmidi) SNDRV_RAWMIDI_INFO_OUTPUT)
               (input_ops rmidi) (Some playback_ops)
        else rmidi in
      let rmidi :=
        if (0 <? midi_out_ports) && (0 <? midi_in_ports)
        then mk_rawmidi (Z.lor (info_flags rmidi) SNDRV_RAWMIDI_INFO_DUPLEX)
               (input_ops rmidi) (output_ops rmidi)
        else rmidi in
      (0, Some rmidi).

End Create.

(** The largest of the three per-mode entries. *)
Definition max_ports (ports : list Z) : Z :=
  Z.max (nth 0 ports 0) (Z.max (nth 1 ports 0) (nth 2 ports 0)).

End DiceMidi.

(** ** Proof automation *)

(** Case analysis on every pair returned by a collaborator and on every
    test of a handler. *)
Ltac split_handler :=
  repeat match goal with
         | |- context [match ?x with (_, _) => _ end] => destruct x eqn:?
         | |- context [if ?b then _ else _] => destruct b eqn:?
         end.

(** ** Concrete inputs *)

(** A transport whose [startDuplex] fails with an I/O error at every
    rate, and one that always succeeds. *)
Definition failing_transport (rate : Z) : Z := - EIO.
Definition working_transport (rate : Z) : Z := 0.

(** A Dice device at rest: token free, no substream, stream idle. *)
Definition dice_idle : Dice.snd_dice := Dice.mk_dice false 0 false 0.

(** A MOTU device at rest, with the scenario's formats in both
    directions. *)
Definition motu_idle : Motu.snd_motu :=
  Motu.mk_motu false false 0 false 0 false false
    scenario_formats scenario_formats.

(** Collaborators for running the MOTU handlers: the scenario's rate
    table, the framework instance above, helpers that succeed and change
    nothing, and a clock provider that reports the given source and
    rate with the given results. *)
Definition scenario_env (src_result : Z * Motu.snd_motu_clock_source)
  (rate_result : Z * Z) : Motu.collaborators :=
  Motu.mk_collaborators scenario_clock_rates 1024
    known_rate_to_rate_bit limit_hw_rates_by_mask
    (fun _ => 0) (fun _ h => (0, h)) (fun motu => (0, motu))
    (fun _ => src_result) (fun _ => rate_result)
    (fun _ _ => 0) (fun _ => 0) (fun _ motu => motu).

Definition blank_hardware : snd_pcm_hardware := mk_hardware 0 0 0 0 0 0.

Definition capture_substream (st : Motu.snd_pcm_state) : Motu.snd_pcm_substream :=
  Motu.mk_substream Motu.SNDRV_PCM_STREAM_CAPTURE st 48000 blank_hardware.

Definition playback_substream (st : Motu.snd_pcm_state) : Motu.snd_pcm_substream :=
  Motu.mk_substream Motu.SNDRV_PCM_STREAM_PLAYBACK st 48000 blank_hardware.


(** * Properties *)

Lemma fold_min_max_spec (sel : nat -> bool) (val : nat -> Z) (l : list nat) :
  (forall i, In i l -> uint_range (val i)) ->
  let r := fold_min_max sel val l (UINT_MAX, 0) in
  (forall i, In i l -> sel i = true -> fst r <= val i <= snd r) /\
  ((forall i, In i l -> sel i = false) -> r = (UINT_MAX, 0)) /\
  ((exists i, In i l /\ sel i = true) ->
     (exists i, In i l /\ sel i = true /\ val i = fst r) /\
     (exists j, In j l /\ sel j = true /\ val j = snd r)).
Proof.
  unfold fold_min_max.
  induction l as [|x l IH] using rev_ind; intros Hr; cbn zeta.
  - cbn. split; [intros i []|]. split; [reflexivity|]. intros [i [[] _]].
  - rewrite fold_left_app. cbn [fold_left].
    assert (Hl : forall i, In i l -> uint_range (val i)).
    { intros i Hi. apply Hr, in_or_app. now left. }
    assert (Hx : uint_range (val x)).
    { apply Hr, in_or_app. right. now left. }
    specialize (IH Hl). cbn zeta in IH.
    set (a := fold_left _ l (UINT_MAX, 0)) in *.
    destruct IH as (Hb & He & Hw).
    destruct (sel x) eqn:Sx.
    + cbn [fst snd].
      assert (Hd : (forall i, In i l -> sel i = false) \/
                   (exists i, In i l /\ sel i = true)).
      { clear -l. induction l as [|y l IHl]; [left; intros i []|].
        destruct (sel y) eqn:Sy.
        - right. exists y. split; [now left|assumption].
        - destruct IHl as [Hn|[i [Hi Si]]].
          + left. intros i [<-|Hi]; auto.
          + right. exists i. split; [now right|assumption]. }
      split; [|split].
      * intros i Hi Si. apply in_app_or in Hi. destruct Hi as [Hi|[<-|[]]].
        -- specialize (Hb i Hi Si). lia.
        -- lia.
      * intros Hn. rewrite (Hn x) in Sx; [discriminate|].
        apply in_or_app. right. now left.
      * intros _. destruct Hd as [Hn|Hex].
        -- rewrite (He Hn). cbn [fst snd]. unfold uint_range in Hx.
           split; exists x; (split; [apply in_or_app; right; now left|]);
             (split; [assumption|]); lia.
        -- destruct (Hw Hex) as ((i & Hi & Si & Ei) & (j & Hj & Sj & Ej)).
           split.
           ++ destruct (Z.le_ge_cases (fst a) (val x)).
              ** exists i. split; [apply in_or_app; now left|].
                 split; [assumption|lia].
              ** exists x. split; [apply in_or_app; right; now left|].
                 split; [assumption|lia].
           ++ destruct (Z.le_ge_cases (snd a) (val x)).
              ** exists x. split; [apply in_or_app; right; now left|].
                 split; [assumption|lia].
              ** exists j. split; [apply in_or_app; now left|].
                 split; [assumption|lia].
    + split; [|split].
      * intros i Hi Si. apply in_app_or in Hi. destruct Hi as [Hi|[<-|[]]].
        -- now apply Hb.
        -- congruence.
      * intros Hn. apply He. intros i Hi. apply Hn, in_or_app. now left.
      * intros (i & Hi & Si). apply in_app_or in Hi.
        destruct Hi as [Hi|[<-|[]]]; [|congruence].
        destruct Hw as ((i1 & Hi1 & Si1 & Ei1) & (j1 & Hj1 & Sj1 & Ej1)).
        { now exists i. }
        split; [exists i1|exists j1];
          (split; [apply in_or_app; now left|now split]).
Qed.

Lemma to_uint_small (z : Z) : uint_range z -> to_uint z = z.
Proof.
  unfold uint_range, UINT_MAX, to_uint. intros H.
  apply Z.mod_small. lia.
Qed.

Lemma nth_uchar_range (l : list Z) (n : nat) :
  Forall uchar_range l -> uchar_range (nth n l 0).
Proof.
  intros H. destruct (Nat.lt_ge_cases n (length l)) as [Hn|Hn].
  - rewrite Forall_forall in H. apply H, nth_In, Hn.
  - rewrite nth_overflow by assumption. unfold uchar_range. lia.
Qed.

Lemma pcm_channels_total (clock_rates : list Z)
  (formats : snd_motu_packet_format) (mode : nat) :
  wf_formats clock_rates formats ->
  pcm_channels formats mode = total_channels formats mode /\
  uint_range (total_channels formats mode).
Proof.
  intros (Hf & Hd & _).
  pose proof (nth_uchar_range _ mode Hf) as H1.
  pose proof (nth_uchar_range _ mode Hd) as H2.
  unfold pcm_channels, total_channels, uchar_range in *.
  assert (Hu : uint_range
    (nth mode (fixed_part_pcm_chunks formats) 0 +
     nth mode (differed_part_pcm_chunks formats) 0)).
  { unfold uint_range, UINT_MAX. lia. }
  split; [now apply to_uint_small|assumption].
Qed.

Lemma nth_uint_range (l : list Z) (n : nat) :
  wf_clock_rates l -> uint_range (nth n l 0).
Proof.
  intros H. destruct (Nat.lt_ge_cases n (length l)) as [Hn|Hn].
  - unfold wf_clock_rates in H. rewrite Forall_forall in H.
    apply H, nth_In, Hn.
  - rewrite nth_overflow by assumption. unfold uint_range, UINT_MAX. lia.
Qed.

(** The record-valued loops keep the flags of their accumulator and move
    its bounds as [fold_min_max] does. *)
Lemma rate_loop_as_fold (clock_rates : list Z)
  (formats : snd_motu_packet_format) (c : snd_interval) (l : list nat) :
  forall acc,
    let r := fold_left (motu_rate_constraint_step clock_rates formats c) l acc in
    (min r, max r) =
      fold_min_max (fun i => snd_interval_test c (pcm_channels formats (i / 2)))
        (fun i => nth i clock_rates 0) l (min acc, max acc) /\
    openmin r = openmin acc /\ openmax r = openmax acc /\
    integer r = integer acc /\ empty r = empty acc.
Proof.
  unfold fold_min_max.
  induction l as [|x l IH]; intros acc; cbn zeta; cbn [fold_left].
  - repeat split.
  - specialize (IH (motu_rate_constraint_step clock_rates formats c acc x)).
    cbn zeta in IH. destruct IH as (E & F). rewrite E. clear E.
    unfold motu_rate_constraint_step in F |- *.
    destruct (snd_interval_test c (pcm_channels formats (x / 2)));
      cbn [negb fst snd min max openmin openmax integer empty] in *;
      (split; [reflexivity|assumption]).
Qed.

Lemma channels_loop_as_fold (clock_rates : list Z)
  (formats : snd_motu_packet_format) (r : snd_interval) (l : list nat) :
  forall acc,
    let ch := fold_left (motu_channels_constraint_step clock_rates formats r) l acc in
    (min ch, max ch) =
      fold_min_max (fun i => snd_interval_test r (nth i clock_rates 0))
        (fun i => pcm_channels formats (i / 2)) l (min acc, max acc) /\
    openmin ch = openmin acc /\ openmax ch = openmax acc /\
    integer ch = integer acc /\ empty ch = empty acc.
Proof.
  unfold fold_min_max.
  induction l as [|x l IH]; intros acc; cbn zeta; cbn [fold_left].
  - repeat split.
  - specialize (IH (motu_channels_constraint_step clock_rates formats r acc x)).
    cbn zeta in IH. destruct IH as (E & F). rewrite E. clear E.
    unfold motu_channels_constraint_step in F |- *.
    destruct (snd_interval_test r (nth x clock_rates 0));
      cbn [negb fst snd min max openmin openmax integer empty] in *;
      (split; [reflexivity|assumption]).
Qed.

Lemma interval_eta (a b : snd_interval) :
  (min a, max a) = (min b, max b) ->
  openmin a = openmin b -> openmax a = openmax b ->
  integer a = integer b -> empty a = empty b -> a = b.
Proof.
  destruct a, b; cbn. intros [= -> ->] -> -> -> ->. reflexivity.
Qed.

(** ** Constraint solver *)

(** C1. For a well-formed mode table and any candidate channel interval
    [c], the interval that [motu_rate_constraint] hands to
    [snd_interval_refine] is the running minimum and maximum, seeded from
    [min = UINT_MAX, max = 0], over the rates of exactly those
    (mode, rate) pairs whose total channel count
    [fixed_part + differed_part] lies in [c]: it bounds every qualifying
    rate, both bounds are attained by a qualifying rate when one exists,
    and it is the empty sentinel when none does. *)
Theorem motu_rate_constraint_min_max
  (clock_rates : list Z) (formats : snd_motu_packet_format) (c : snd_interval) :
  wf_clock_rates clock_rates ->
  wf_formats clock_rates formats ->
  let rates := motu_rate_constraint_loop clock_rates formats c in
  (forall refine params,
     param_channels params = c ->
     motu_rate_constraint clock_rates refine formats params =
       (fst (refine (param_rate params) rates),
        mk_hw_params c (snd (refine (param_rate params) rates)))) /\
  (forall i, rate_pair_qualifies clock_rates formats c i ->
     min rates <= nth i clock_rates 0 <= max rates) /\
  ((exists i, rate_pair_qualifies clock_rates formats c i) ->
     (exists i, rate_pair_qualifies clock_rates formats c i /\
                nth i clock_rates 0 = min rates) /\
     (exists j, rate_pair_qualifies clock_rates formats c j /\
                nth j clock_rates 0 = max rates)) /\
  ((forall i, ~ rate_pair_qualifies clock_rates formats c i) ->
     rates = empty_sentinel).
Proof.
  intros Hr Hf rates.
  destruct (rate_loop_as_fold clock_rates formats c
              (seq 0 (length clock_rates)) empty_sentinel) as (E & F1 & F2 & F3 & F4).
  fold (motu_rate_constraint_loop clock_rates formats c) in E, F1, F2, F3, F4.
  fold rates in E, F1, F2, F3, F4.
  destruct (fold_min_max_spec
              (fun i => snd_interval_test c (pcm_channels formats (i / 2)))
              (fun i => nth i clock_rates 0) (seq 0 (length clock_rates)))
    as (Hb & He & Hw).
  { intros i _. now apply nth_uint_range. }
  cbn [min max empty_sentinel] in E. rewrite <- E in Hb, He, Hw.
  cbn [fst snd] in Hb, Hw.
  assert (Hq : forall i, rate_pair_qualifies clock_rates formats c i <->
                 In i (seq 0 (length clock_rates)) /\
                 snd_interval_test c (pcm_channels formats (i / 2)) = true).
  { intros i. unfold rate_pair_qualifies.
    destruct (pcm_channels_total clock_rates formats (i / 2) Hf) as [-> _].
    rewrite in_seq. intuition lia. }
  split; [|split; [|split]].
  - intros refine params <-. unfold motu_rate_constraint. fold rates.
    destruct (refine (param_rate params) rates). reflexivity.
  - intros i Hi. apply Hq in Hi. destruct Hi. now apply Hb.
  - intros (i & Hi). apply Hq in Hi.
    destruct Hw as ((i1 & H1 & S1 & E1) & (j1 & H2 & S2 & E2)).
    { now exists i. }
    split; [exists i1|exists j1]; (split; [apply Hq; now split|assumption]).
  - intros Hn. apply interval_eta; try assumption.
    rewrite He; [reflexivity|]. intros i Hi.
    destruct (snd_interval_test c (pcm_channels formats (i / 2))) eqn:S;
      [|reflexivity].
    exfalso. apply (Hn i), Hq. now split.
Qed.

Lemma scenario_table_wf :
  wf_clock_rates scenario_clock_rates /\
  wf_formats scenario_clock_rates scenario_formats.
Proof.
  unfold wf_clock_rates, wf_formats, scenario_clock_rates, scenario_formats.
  cbn [fixed_part_pcm_chunks differed_part_pcm_chunks length].
  repeat split; try lia;
    repeat constructor; unfold UINT_MAX; lia.
Defined.

Lemma motu_rate_constraint_min_max_witness :
  wf_clock_rates scenario_clock_rates /\
  wf_formats scenario_clock_rates scenario_formats /\
  min (motu_rate_constraint_loop scenario_clock_rates scenario_formats
         (closed_interval 4 4)) <= 96000 <=
  max (motu_rate_constraint_loop scenario_clock_rates scenario_formats
         (closed_interval 4 4)).
Proof.
  destruct scenario_table_wf as [Hr Hf].
  split; [exact Hr|split; [exact Hf|]].
  destruct (motu_rate_constraint_min_max scenario_clock_rates scenario_formats
              (closed_interval 4 4) Hr Hf) as (_ & Hb & _).
  apply (Hb 3%nat). split; [cbn; lia|reflexivity].
Defined.

(** C2. For a well-formed mode table and any candidate rate interval [r],
    the interval that [motu_channels_constraint] hands to
    [snd_interval_refine] is the running minimum and maximum, seeded from
    [min = UINT_MAX, max = 0], over the total channel counts
    [fixed_part + differed_part] of exactly those table entries whose rate
    lies in [r]; it is the empty sentinel when no rate lies in [r]. *)
Theorem motu_channels_constraint_min_max
  (clock_rates : list Z) (formats : snd_motu_packet_format) (r : snd_interval) :
  wf_clock_rates clock_rates ->
  wf_formats clock_rates formats ->
  let channels := motu_channels_constraint_loop clock_rates formats r in
  (forall refine params,
     param_rate params = r ->
     motu_channels_constraint clock_rates refine formats params =
       (fst (refine (param_channels params) channels),
        mk_hw_params (snd (refine (param_channels params) channels)) r)) /\
  (forall i, channels_pair_qualifies clock_rates r i ->
     min channels <= total_channels formats (i / 2) <= max channels) /\
  ((exists i, channels_pair_qualifies clock_rates r i) ->
     (exists i, channels_pair_qualifies clock_rates r i /\
                total_channels formats (i / 2) = min channels) /\
     (exists j, channels_pair_qualifies clock_rates r j /\
                total_channels formats (j / 2) = max channels)) /\
  ((forall i, ~ channels_pair_qualifies clock_rates r i) ->
     channels = empty_sentinel).
Proof.
  intros Hr Hf channels.
  destruct (channels_loop_as_fold clock_rates formats r
              (seq 0 (length clock_rates)) empty_sentinel) as (E & F1 & F2 & F3 & F4).
  fold (motu_channels_constraint_loop clock_rates formats r) in E, F1, F2, F3, F4.
  fold channels in E, F1, F2, F3, F4.
  assert (Ht : forall m, pcm_channels formats m = total_channels formats m).
  { intros m. now destruct (pcm_channels_total clock_rates formats m Hf). }
  destruct (fold_min_max_spec
              (fun i => snd_interval_test r (nth i clock_rates 0))
              (fun i => pcm_channels formats (i / 2)) (seq 0 (length clock_rates)))
    as (Hb & He & Hw).
  { intros i _. rewrite Ht.
    now destruct (pcm_channels_total clock_rates formats (i / 2) Hf). }
  cbn [min max empty_sentinel] in E. rewrite <- E in Hb, He, Hw.
  cbn [fst snd] in Hb, Hw.
  assert (Hq : forall i, channels_pair_qualifies clock_rates r i <->
                 In i (seq 0 (length clock_rates)) /\
                 snd_interval_test r (nth i clock_rates 0) = true).
  { intros i. unfold channels_pair_qualifies. rewrite in_seq. intuition lia. }
  split; [|split; [|split]].
  - intros refine params <-. unfold motu_channels_constraint. fold channels.
    destruct (refine (param_channels params) channels). reflexivity.
  - intros i Hi. apply Hq in Hi. destruct Hi. rewrite <- Ht. now apply Hb.
  - intros (i & Hi). apply Hq in Hi.
    destruct Hw as ((i1 & H1 & S1 & E1) & (j1 & H2 & S2 & E2)).
    { now exists i. }
    rewrite Ht in E1, E2.
    split; [exists i1|exists j1]; (split; [apply Hq; now split|assumption]).
  - intros Hn. apply interval_eta; try assumption.
    rewrite He; [reflexivity|]. intros i Hi.
    destruct (snd_interval_test r (nth i clock_rates 0)) eqn:S; [|reflexivity].
    exfalso. apply (Hn i), Hq. now split.
Qed.

Lemma motu_channels_constraint_min_max_witness :
  wf_clock_rates scenario_clock_rates /\
  wf_formats scenario_clock_rates scenario_formats /\
  min (motu_channels_constraint_loop scenario_clock_rates scenario_formats
         (closed_interval 44100 48000)) <= 2 <=
  max (motu_channels_constraint_loop scenario_clock_rates scenario_formats
         (closed_interval 44100 48000)).
Proof.
  destruct scenario_table_wf as [Hr Hf].
  split; [exact Hr|split; [exact Hf|]].
  destruct (motu_channels_constraint_min_max scenario_clock_rates scenario_formats
              (closed_interval 44100 48000) Hr Hf) as (_ & Hb & _).
  apply (Hb 1%nat). split; [cbn; lia|reflexivity].
Defined.

(** C5. On the table {mode0: fixed 2, variable 0, rates 44100 and 48000;
    mode1: fixed 2, variable 2, rates 88200 and 96000} the rate rule run on
    the channel interval [[4,4]] produces exactly [[88200,96000]] and the
    channel rule run on the rate interval [[44100,44100]] produces exactly
    [[2,2]]; whatever [snd_interval_refine] is, these are the intervals the
    two rules pass to it. *)
Theorem scenario_refinement :
  motu_rate_constraint_loop scenario_clock_rates scenario_formats
    (closed_interval 4 4) =
    mk_interval 88200 96000 false false true false /\
  motu_channels_constraint_loop scenario_clock_rates scenario_formats
    (closed_interval 44100 44100) =
    mk_interval 2 2 false false true false /\
  (forall refine r,
     motu_rate_constraint scenario_clock_rates refine scenario_formats
       (mk_hw_params (closed_interval 4 4) r) =
     (fst (refine r (mk_interval 88200 96000 false false true false)),
      mk_hw_params (closed_interval 4 4)
        (snd (refine r (mk_interval 88200 96000 false false true false))))) /\
  (forall refine c,
     motu_channels_constraint scenario_clock_rates refine scenario_formats
       (mk_hw_params c (closed_interval 44100 44100)) =
     (fst (refine c (mk_interval 2 2 false false true false)),
      mk_hw_params
        (snd (refine c (mk_interval 2 2 false false true false)))
        (closed_interval 44100 44100))).
Proof.
  assert (E1 : motu_rate_constraint_loop scenario_clock_rates scenario_formats
                 (closed_interval 4 4) =
               mk_interval 88200 96000 false false true false)
    by (vm_compute; reflexivity).
  assert (E2 : motu_channels_constraint_loop scenario_clock_rates scenario_formats
                 (closed_interval 44100 44100) =
               mk_interval 2 2 false false true false)
    by (vm_compute; reflexivity).
  split; [exact E1|split; [exact E2|split]].
  - intros refine r. unfold motu_rate_constraint.
    cbn [param_channels param_rate]. rewrite E1.
    destruct (refine r _). reflexivity.
  - intros refine c. unfold motu_channels_constraint.
    cbn [param_channels param_rate]. rewrite E2.
    destruct (refine c _). reflexivity.
Qed.

(** ** Capability window *)

Lemma limit_loop_as_fold (clock_rates : list Z) (rate_bit : Z -> Z)
  (formats : snd_motu_packet_format) (l : list nat) :
  forall acc,
    let r := fold_left
               (limit_channels_and_rates_step clock_rates rate_bit formats) l acc in
    (hw_channels_min r, hw_channels_max r) =
      fold_min_max (fun i => negb (pcm_channels formats (i / 2) =? 0))
        (fun i => pcm_channels formats (i / 2)) l
        (hw_channels_min acc, hw_channels_max acc) /\
    hw_formats r = hw_formats acc /\
    hw_rate_min r = hw_rate_min acc /\
    hw_rate_max r = hw_rate_max acc /\
    (forall n, Z.testbit (hw_rates r) n = true <->
       Z.testbit (hw_rates acc) n = true \/
       exists i, In i l /\ pcm_channels formats (i / 2) <> 0 /\
                 Z.testbit (rate_bit (nth i clock_rates 0)) n = true).
Proof.
  unfold fold_min_max.
  induction l as [|x l IH]; intros acc; cbn zeta; cbn [fold_left].
  - repeat split; try tauto. intros [H|(i & [] & _)]. exact H.
  - specialize (IH (limit_channels_and_rates_step clock_rates rate_bit formats acc x)).
    cbn zeta in IH. destruct IH as (E & F1 & F2 & F3 & B). rewrite E. clear E.
    unfold limit_channels_and_rates_step in F1, F2, F3, B |- *.
    destruct (pcm_channels formats (x / 2) =? 0) eqn:Z0;
      cbn [negb fst snd hw_formats hw_rates hw_rate_min hw_rate_max
           hw_channels_min hw_channels_max] in *.
    + apply Z.eqb_eq in Z0.
      repeat (split; [reflexivity || assumption|]).
      intros n. rewrite B. split.
      * intros [H|(i & Hi & Hn & Hb)]; [now left|].
        right. exists i. split; [now right|now split].
      * intros [H|(i & [<-|Hi] & Hn & Hb)]; [now left|congruence|].
        right. exists i. now split.
    + apply Z.eqb_neq in Z0.
      repeat (split; [reflexivity || assumption|]).
      intros n. rewrite B, Z.lor_spec, orb_true_iff. split.
      * intros [[H|H]|(i & Hi & Hn & Hb)].
        -- now left.
        -- right. exists x. split; [now left|now split].
        -- right. exists i. split; [now right|now split].
      * intros [H|(i & [<-|Hi] & Hn & Hb)].
        -- left. now left.
        -- left. now right.
        -- right. exists i. now split.
Qed.

(** C6. For a well-formed mode table, whatever the rate-bit assignment,
    and for a [snd_pcm_limit_hw_rates] that leaves the mask and the channel
    bounds alone, the window computed by [limit_channels_and_rates] has,
    for every table entry with non-zero total channel count, all bits of
    that entry's rate set in the supported-rates mask and the entry's
    channel count within [[channels_min, channels_max]].  Entries with zero
    channels contribute nothing: a bit of the final mask was set on entry
    or belongs to the rate of an entry with channels, and each channel
    bound is the sentinel or the channel count of an entry with
    channels. *)
Theorem limit_channels_and_rates_window
  (clock_rates : list Z) (rate_bit : Z -> Z)
  (limit : snd_pcm_hardware -> snd_pcm_hardware)
  (formats : snd_motu_packet_format) (hw : snd_pcm_hardware) :
  wf_formats clock_rates formats ->
  (forall h, hw_rates (limit h) = hw_rates h /\
             hw_channels_min (limit h) = hw_channels_min h /\
             hw_channels_max (limit h) = hw_channels_max h) ->
  let hw' := limit_channels_and_rates clock_rates rate_bit limit formats hw in
  (forall i, entry_has_channels clock_rates formats i ->
     Z.land (hw_rates hw') (rate_bit (nth i clock_rates 0)) =
       rate_bit (nth i clock_rates 0) /\
     hw_channels_min hw' <= total_channels formats (i / 2) <= hw_channels_max hw') /\
  (forall n, Z.testbit (hw_rates hw') n = true ->
     Z.testbit (hw_rates hw) n = true \/
     exists i, entry_has_channels clock_rates formats i /\
               Z.testbit (rate_bit (nth i clock_rates 0)) n = true) /\
  (hw_channels_min hw' = UINT_MAX \/
   exists i, entry_has_channels clock_rates formats i /\
             total_channels formats (i / 2) = hw_channels_min hw') /\
  (hw_channels_max hw' = 0 \/
   exists i, entry_has_channels clock_rates formats i /\
             total_channels formats (i / 2) = hw_channels_max hw').
Proof.
  intros Hf Hl hw'.
  destruct (Hl (limit_channels_and_rates_loop clock_rates rate_bit formats hw))
    as (L1 & L2 & L3).
  fold (limit_channels_and_rates clock_rates rate_bit limit formats hw) in L1, L2, L3.
  fold hw' in L1, L2, L3.
  destruct (limit_loop_as_fold clock_rates rate_bit formats
              (seq 0 (length clock_rates))
              (mk_hardware (hw_formats hw) (hw_rates hw) (hw_rate_min hw)
                 (hw_rate_max hw) UINT_MAX 0)) as (E & _ & _ & _ & B).
  fold (limit_channels_and_rates_loop clock_rates rate_bit formats hw) in E, B.
  rewrite <- L1 in B. rewrite <- L2, <- L3 in E.
  cbn [hw_rates hw_channels_min hw_channels_max] in E, B.
  assert (Ht : forall m, pcm_channels formats m = total_channels formats m).
  { intros m. now destruct (pcm_channels_total clock_rates formats m Hf). }
  destruct (fold_min_max_spec
              (fun i => negb (pcm_channels formats (i / 2) =? 0))
              (fun i => pcm_channels formats (i / 2)) (seq 0 (length clock_rates)))
    as (Hb & He & Hw).
  { intros i _. rewrite Ht.
    now destruct (pcm_channels_total clock_rates formats (i / 2) Hf). }
  rewrite <- E in Hb, He, Hw. cbn [fst snd] in Hb, Hw.
  assert (Hq : forall i, entry_has_channels clock_rates formats i <->
                 In i (seq 0 (length clock_rates)) /\
                 negb (pcm_channels formats (i / 2) =? 0) = true).
  { intros i. unfold entry_has_channels.
    rewrite in_seq, negb_true_iff, Z.eqb_neq, Ht. intuition lia. }
  assert (Hd : (forall i, In i (seq 0 (length clock_rates)) ->
                  negb (pcm_channels formats (i / 2) =? 0) = false) \/
               (exists i, In i (seq 0 (length clock_rates)) /\
                  negb (pcm_channels formats (i / 2) =? 0) = true)).
  { generalize (seq 0 (length clock_rates)). intros l.
    induction l as [|y l IHl]; [left; intros i []|].
    destruct (negb (pcm_channels formats (y / 2) =? 0)) eqn:Sy.
    - right. exists y. split; [now left|assumption].
    - destruct IHl as [Hn|(i & Hi & Si)].
      + left. intros i [<-|Hi]; auto.
      + right. exists i. split; [now right|assumption]. }
  split; [|split; [|split]].
  - intros i Hi. pose proof Hi as Hi'. apply Hq in Hi'. destruct Hi' as [Hin Hs].
    split.
    + apply Z.bits_inj'. intros n _. rewrite Z.land_spec.
      destruct (Z.testbit (rate_bit (nth i clock_rates 0)) n) eqn:Tb;
        [|apply andb_false_r].
      rewrite andb_true_r. apply B. right. exists i.
      split; [assumption|]. split; [|assumption].
      rewrite Ht. apply Hi.
    + rewrite <- Ht. now apply Hb.
  - intros n Hn. apply B in Hn. destruct Hn as [Hn|(i & Hin & Hnz & Hbit)].
    + now left.
    + right. exists i. split; [|assumption]. apply Hq. split; [assumption|].
      now rewrite negb_true_iff, Z.eqb_neq.
  - destruct Hd as [Hn|Hex].
    + left. apply He in Hn. now injection Hn.
    + right. destruct (Hw Hex) as ((i & Hi & Si & Ei) & _).
      exists i. split; [apply Hq; now split|]. now rewrite <- Ht.
  - destruct Hd as [Hn|Hex].
    + left. apply He in Hn. now injection Hn.
    + right. destruct (Hw Hex) as (_ & (j & Hj & Sj & Ej)).
      exists j. split; [apply Hq; now split|]. now rewrite <- Ht.
Qed.

Lemma limit_hw_rates_by_mask_frame (h : snd_pcm_hardware) :
  hw_rates (limit_hw_rates_by_mask h) = hw_rates h /\
  hw_channels_min (limit_hw_rates_by_mask h) = hw_channels_min h /\
  hw_channels_max (limit_hw_rates_by_mask h) = hw_channels_max h.
Proof.
  unfold limit_hw_rates_by_mask.
  destruct (filter _ snd_pcm_known_rates); repeat split.
Defined.

Lemma limit_channels_and_rates_window_witness :
  wf_formats scenario_clock_rates scenario_formats /\
  (forall h, hw_rates (limit_hw_rates_by_mask h) = hw_rates h /\
             hw_channels_min (limit_hw_rates_by_mask h) = hw_channels_min h /\
             hw_channels_max (limit_hw_rates_by_mask h) = hw_channels_max h) /\
  Z.land
    (hw_rates (limit_channels_and_rates scenario_clock_rates
                 known_rate_to_rate_bit limit_hw_rates_by_mask
                 scenario_formats blank_hardware))
    (known_rate_to_rate_bit 88200) = known_rate_to_rate_bit 88200 /\
  hw_channels_min (limit_channels_and_rates scenario_clock_rates
                     known_rate_to_rate_bit limit_hw_rates_by_mask
                     scenario_formats blank_hardware) <= 4 <=
  hw_channels_max (limit_channels_and_rates scenario_clock_rates
                     known_rate_to_rate_bit limit_hw_rates_by_mask
                     scenario_formats blank_hardware).
Proof.
  destruct scenario_table_wf as [_ Hf].
  split; [exact Hf|]. split; [exact limit_hw_rates_by_mask_frame|].
  destruct (limit_channels_and_rates_window scenario_clock_rates
              known_rate_to_rate_bit limit_hw_rates_by_mask scenario_formats
              blank_hardware Hf limit_hw_rates_by_mask_frame) as (Hin & _).
  apply (Hin 2%nat). split; [cbn; lia|cbn; lia].
Defined.

(** ** Lifecycle and error paths *)

Lemma ltb_neg_true (e : Z) : e < 0 -> (e <? 0) = true.
Proof. intros H. now apply Z.ltb_lt. Qed.

Lemma ltb_neg_false (e : Z) : 0 <= e -> (e <? 0) = false.
Proof. intros H. apply Z.ltb_ge. lia. Qed.

(** C3. When the start of the duplex stream fails, [capture_open] and
    [playback_open] give the token back and return the error, but the
    increment of the counter stays: from any device whose token is free
    and whose stream is idle, with counter [n], the failed open leaves the
    counter at [n + 1] (as an [int]); from the device at rest it is 1, not
    0. *)
Theorem open_failed_start_keeps_increment :
  (forall n r,
     Dice.capture_open (Dice.spec_stream_ops failing_transport)
       (Dice.mk_dice false n false r) =
       (- EIO, Dice.mk_dice false (to_int (n + 1)) false r) /\
     Dice.playback_open (Dice.spec_stream_ops failing_transport)
       (Dice.mk_dice false n false r) =
       (- EIO, Dice.mk_dice false (to_int (n + 1)) false r)) /\
  Dice.substreams_counter
    (snd (Dice.capture_open (Dice.spec_stream_ops failing_transport) dice_idle)) = 1 /\
  Dice.substreams_counter
    (snd (Dice.playback_open (Dice.spec_stream_ops failing_transport) dice_idle)) = 1.
Proof.
  split; [|split; reflexivity].
  intros n r. split; reflexivity.
Qed.

(** C4. [capture_prepare] returns 0 whatever the start of the duplex
    stream returned, while [playback_prepare] returns the result of the
    start.  When the start fails with an I/O error on an idle device,
    [playback_prepare] returns the error and leaves the device as it was;
    [capture_prepare] leaves the device as it was but returns 0. *)
Theorem prepare_failed_start_results :
  (forall ops env substream motu,
     fst (Motu.capture_prepare ops env substream motu) = 0 /\
     fst (Motu.playback_prepare ops env substream motu) =
       fst (Motu.snd_motu_stream_start_duplex ops (Motu.mutex_lock motu)
              (Motu.rate substream))) /\
  (forall env substream l n r txr rxr txf rxf,
     let motu := Motu.mk_motu l false n false r txr rxr txf rxf in
     Motu.playback_prepare (Motu.spec_stream_ops failing_transport) env
       substream motu = (- EIO, motu) /\
     Motu.capture_prepare (Motu.spec_stream_ops failing_transport) env
       substream motu = (0, motu)).
Proof.
  split.
  - intros ops env substream motu.
    unfold Motu.capture_prepare, Motu.playback_prepare.
    destruct (Motu.snd_motu_stream_start_duplex ops (Motu.mutex_lock motu)
                (Motu.rate substream)) as [err motu'].
    split; reflexivity.
  - intros. split; reflexivity.
Qed.

(** C7. Once [pcm_open] holds the token and the mutex, has refreshed the
    formats and has built the hardware description: a failing clock-source
    query, or a failing clock-rate query when one is made, aborts the open
    with that error after the mutex is unlocked and the token released.
    When the source is not the internal one, or a PCM substream runs on
    the tx or on the rx stream, the substream returned has
    [rate_min = rate_max = rate] for the rate the clock provider reports,
    and everything else as [init_hw_info] built it.  When the source is the
    internal one and no PCM substream runs on either stream, the substream
    returned is the one [init_hw_info] built, rate window included. *)
Theorem pcm_open_clock_policy
  (ops : Motu.stream_ops) (env : Motu.collaborators)
  (substream substream1 : Motu.snd_pcm_substream)
  (motu motu1 motu2 : Motu.snd_motu)
  (e_lock e_cache e_info e_src e_rate rate : Z)
  (src : Motu.snd_motu_clock_source) :
  Motu.snd_motu_stream_lock_try ops motu = (e_lock, motu1) ->
  0 <= e_lock ->
  Motu.snd_motu_stream_cache_packet_formats env (Motu.mutex_lock motu1) =
    (e_cache, motu2) ->
  0 <= e_cache ->
  Motu.init_hw_info env motu2 substream = (e_info, substream1) ->
  0 <= e_info ->
  Motu.get_clock_source env motu2 = (e_src, src) ->
  Motu.get_clock_rate env motu2 = (e_rate, rate) ->
  let limited :=
    src <> Motu.SND_MOTU_CLOCK_SOURCE_INTERNAL \/
    Motu.tx_pcm_running motu2 = true \/
    Motu.rx_pcm_running motu2 = true in
  let free_running :=
    src = Motu.SND_MOTU_CLOCK_SOURCE_INTERNAL /\
    Motu.tx_pcm_running motu2 = false /\
    Motu.rx_pcm_running motu2 = false in
  let h1 := Motu.hw substream1 in
  let aborted :=
    Motu.snd_motu_stream_lock_release ops (Motu.mutex_unlock motu2) in
  let result := Motu.pcm_open ops env substream motu in
  let opened := snd (fst result) in
  (e_src < 0 -> result = (e_src, substream1, aborted)) /\
  (0 <= e_src -> limited -> e_rate < 0 ->
     result = (e_rate, substream1, aborted)) /\
  (0 <= e_src -> limited -> 0 <= e_rate ->
     fst (fst result) = e_rate /\
     snd result = Motu.mutex_unlock motu2 /\
     hw_rate_min (Motu.hw opened) = rate /\
     hw_rate_max (Motu.hw opened) = rate /\
     hw_formats (Motu.hw opened) = hw_formats h1 /\
     hw_rates (Motu.hw opened) = hw_rates h1 /\
     hw_channels_min (Motu.hw opened) = hw_channels_min h1 /\
     hw_channels_max (Motu.hw opened) = hw_channels_max h1 /\
     Motu.stream opened = Motu.stream substream1 /\
     Motu.state opened = Motu.state substream1 /\
     Motu.rate opened = Motu.rate substream1) /\
  (0 <= e_src -> free_running ->
     result = (e_src, substream1, Motu.mutex_unlock motu2) /\
     hw_rate_min (Motu.hw opened) = hw_rate_min h1 /\
     hw_rate_max (Motu.hw opened) = hw_rate_max h1) /\
  (forall transport_start,
     ops = Motu.spec_stream_ops transport_start ->
     Motu.dev_lock aborted = false /\ Motu.mutex aborted = false).
Proof.
  intros Hlock Pl Hcache Pc Hinfo Pi Hsrc Hrate
    limited free_running h1 aborted result opened.
  assert (Hl : limited ->
               negb (Motu.is_internal src) || Motu.tx_pcm_running motu2
               || Motu.rx_pcm_running motu2 = true).
  { intros [Hs|[Ht|Hr]].
    - destruct src; [now elim Hs|reflexivity].
    - rewrite Ht. now rewrite orb_true_r.
    - rewrite Hr. now rewrite orb_true_r. }
  assert (Hf : free_running ->
               negb (Motu.is_internal src) || Motu.tx_pcm_running motu2
               || Motu.rx_pcm_running motu2 = false).
  { intros (-> & -> & ->). reflexivity. }
  subst opened result. unfold Motu.pcm_open.
  rewrite Hlock. rewrite (ltb_neg_false _ Pl).
  rewrite Hcache. rewrite (ltb_neg_false _ Pc).
  rewrite Hinfo. rewrite (ltb_neg_false _ Pi).
  rewrite Hsrc.
  split; [|split; [|split; [|split]]].
  - intros N. now rewrite (ltb_neg_true _ N).
  - intros P C N. rewrite (ltb_neg_false _ P), (Hl C), Hrate.
    now rewrite (ltb_neg_true _ N).
  - intros P C P'. rewrite (ltb_neg_false _ P), (Hl C), Hrate.
    rewrite (ltb_neg_false _ P'). subst h1. destruct substream1.
    repeat split.
  - intros P C. rewrite (ltb_neg_false _ P), (Hf C). repeat split.
  - intros transport_start ->. split; reflexivity.
Qed.

Lemma pcm_open_clock_policy_witness :
  let result :=
    Motu.pcm_open (Motu.spec_stream_ops working_transport)
      (scenario_env (0, Motu.SND_MOTU_CLOCK_SOURCE_OTHER 10) (0, 96000))
      (capture_substream Motu.SNDRV_PCM_STATE_OPEN) motu_idle in
  fst (fst result) = 0 /\
  hw_rate_min (Motu.hw (snd (fst result))) = 96000 /\
  hw_rate_max (Motu.hw (snd (fst result))) = 96000 /\
  hw_rates (Motu.hw (snd (fst result))) = 1728 /\
  hw_channels_min (Motu.hw (snd (fst result))) = 2 /\
  hw_channels_max (Motu.hw (snd (fst result))) = 4 /\
  Motu.dev_lock (snd result) = true /\ Motu.mutex (snd result) = false.
Proof.
  cbv zeta.
  pose (env := scenario_env (0, Motu.SND_MOTU_CLOCK_SOURCE_OTHER 10) (0, 96000)).
  pose (m1 := Motu.mk_motu true false 0 false 0 false false
                scenario_formats scenario_formats).
  pose (s1 := Motu.mk_substream Motu.SNDRV_PCM_STREAM_CAPTURE
                Motu.SNDRV_PCM_STATE_OPEN 48000
                (mk_hardware 1024 1728 44100 96000 2 4)).
  assert (P0 : 0 <= 0) by lia.
  pose proof (pcm_open_clock_policy (Motu.spec_stream_ops working_transport) env
                (capture_substream Motu.SNDRV_PCM_STATE_OPEN) s1
                motu_idle m1 (Motu.mutex_lock m1) 0 0 0 0 0 96000
                (Motu.SND_MOTU_CLOCK_SOURCE_OTHER 10)
                eq_refl P0 eq_refl P0 eq_refl P0 eq_refl eq_refl) as H.
  cbv zeta in H. destruct H as (_ & _ & H & _).
  assert (Hs : Motu.SND_MOTU_CLOCK_SOURCE_OTHER 10 <>
               Motu.SND_MOTU_CLOCK_SOURCE_INTERNAL) by discriminate.
  specialize (H P0 (or_introl Hs) P0).
  destruct H as (R & M & Hmin & Hmax & _ & Hrates & Hcmin & Hcmax & _).
  split; [exact R|]. split; [exact Hmin|]. split; [exact Hmax|].
  split; [exact Hrates|]. split; [exact Hcmin|]. split; [exact Hcmax|].
  split; [exact (f_equal Motu.dev_lock M)|exact (f_equal Motu.mutex M)].
Defined.

(** ** Exclusivity lock *)

Section ExclusiveLock.

Context {device : Type}.
Variable acquire : device -> Z * device.
Variable give_back : device -> device.
Variable held : device -> bool.

Hypothesis acquire_busy :
  forall d, held d = true -> acquire d = (- EBUSY, d).
Hypothesis acquire_free :
  forall d, held d = false -> fst (acquire d) = 0 /\ held (snd (acquire d)) = true.

Lemma lock_run_app (l1 l2 : list lock_request) (d : device) :
  lock_run acquire give_back (l1 ++ l2) d =
  lock_run acquire give_back l1 d ++
  lock_run acquire give_back l2 (lock_run_state acquire give_back l1 d).
Proof.
  revert d. induction l1 as [|req l1 IH]; intros d; cbn; [reflexivity|].
  destruct (lock_step acquire give_back req d) as [res d'] eqn:E.
  cbn. now rewrite IH.
Qed.

Lemma lock_run_length (l : list lock_request) (d : device) :
  length (lock_run acquire give_back l d) = length l.
Proof.
  revert d. induction l as [|req l IH]; intros d; cbn; [reflexivity|].
  destruct (lock_step acquire give_back req d). cbn. now rewrite IH.
Qed.

Lemma acquire_success_holds (d : device) :
  fst (acquire d) = 0 -> held (snd (acquire d)) = true.
Proof.
  intros H. destruct (held d) eqn:Hd.
  - rewrite (acquire_busy d Hd) in H. discriminate H.
  - now apply acquire_free.
Qed.

Lemma held_without_release (l : list lock_request) (d : device) :
  held d = true -> ~ In Release l ->
  held (lock_run_state acquire give_back l d) = true.
Proof.
  revert d. induction l as [|req l IH]; intros d Hd Hn; cbn; [assumption|].
  destruct req.
  - cbn. rewrite (acquire_busy d Hd). cbn. apply IH; [assumption|].
    intros Hin. apply Hn. now right.
  - exfalso. apply Hn. now left.
Qed.

(** Two successful acquisitions in one run have a release between
    them. *)
Lemma lock_run_exclusive (pre mid post : list lock_request) (d : device) :
  let results :=
    lock_run acquire give_back
      (pre ++ TryAcquire :: mid ++ TryAcquire :: post) d in
  nth (length pre) results 1 = 0 ->
  nth (length pre + 1 + length mid) results 1 = 0 ->
  In Release mid.
Proof.
  cbn zeta. rewrite lock_run_app.
  set (d1 := lock_run_state acquire give_back pre d).
  intros H1 H2.
  rewrite app_nth2 in H1, H2 by (rewrite lock_run_length; lia).
  rewrite lock_run_length in H1, H2.
  replace (length pre - length pre)%nat with 0%nat in H1 by lia.
  replace (length pre + 1 + length mid - length pre)%nat
    with (S (length mid)) in H2 by lia.
  cbn [lock_run lock_step] in H1, H2.
  destruct (acquire d1) as [res d2] eqn:E1. cbn [nth] in H1, H2.
  assert (Hd2 : held d2 = true).
  { pose proof (acquire_success_holds d1) as A. rewrite E1 in A. now apply A. }
  rewrite lock_run_app in H2.
  rewrite app_nth2 in H2 by (rewrite lock_run_length; lia).
  rewrite lock_run_length, Nat.sub_diag in H2.
  destruct (in_dec (fun a b : lock_request =>
                      ltac:(decide equality) : {a = b} + {a <> b})
              Release mid) as [Hin|Hn]; [assumption|exfalso].
  pose proof (held_without_release mid d2 Hd2 Hn) as Hm.
  cbn [lock_run lock_step] in H2.
  rewrite (acquire_busy _ Hm) in H2. cbn in H2. discriminate H2.
Qed.

End ExclusiveLock.

Lemma motu_acquire_busy (motu : Motu.snd_motu) :
  Motu.dev_lock motu = true -> Motu.try_acquire motu = (- EBUSY, motu).
Proof. unfold Motu.try_acquire. now intros ->. Qed.

Lemma motu_acquire_free (motu : Motu.snd_motu) :
  Motu.dev_lock motu = false ->
  fst (Motu.try_acquire motu) = 0 /\
  Motu.dev_lock (snd (Motu.try_acquire motu)) = true.
Proof. unfold Motu.try_acquire. intros ->. now split. Qed.

Lemma dice_acquire_busy (dice : Dice.snd_dice) :
  Dice.dev_lock dice = true -> Dice.try_acquire dice = (- EBUSY, dice).
Proof. unfold Dice.try_acquire. now intros ->. Qed.

Lemma dice_acquire_free (dice : Dice.snd_dice) :
  Dice.dev_lock dice = false ->
  fst (Dice.try_acquire dice) = 0 /\
  Dice.dev_lock (snd (Dice.try_acquire dice)) = true.
Proof. unfold Dice.try_acquire. intros ->. now split. Qed.

(** C9. The exclusivity lock is try-only and exclusive.  In any sequence
    of requests on either device's lock, two successful acquisitions have
    a release between them; an acquisition while the token is out returns
    [-EBUSY] and changes nothing.  Every open handler ([pcm_open],
    [capture_open], [playback_open]) returns a failure of the lock attempt
    as its own result, with the device as the attempt left it and nothing
    else done; with the token out that result is [-EBUSY] and the device is
    untouched. *)
Theorem exclusivity_lock_try_only :
  (forall pre mid post motu,
     let results :=
       lock_run Motu.try_acquire Motu.release
         (pre ++ TryAcquire :: mid ++ TryAcquire :: post) motu in
     nth (length pre) results 1 = 0 ->
     nth (length pre + 1 + length mid) results 1 = 0 ->
     In Release mid) /\
  (forall pre mid post dice,
     let results :=
       lock_run Dice.try_acquire Dice.release
         (pre ++ TryAcquire :: mid ++ TryAcquire :: post) dice in
     nth (length pre) results 1 = 0 ->
     nth (length pre + 1 + length mid) results 1 = 0 ->
     In Release mid) /\
  (forall motu, Motu.dev_lock motu = true ->
     Motu.try_acquire motu = (- EBUSY, motu)) /\
  (forall dice, Dice.dev_lock dice = true ->
     Dice.try_acquire dice = (- EBUSY, dice)) /\
  (forall ops env substream motu err motu',
     Motu.snd_motu_stream_lock_try ops motu = (err, motu') -> err < 0 ->
     Motu.pcm_open ops env substream motu = (err, substream, motu')) /\
  (forall ops dice err dice',
     Dice.snd_dice_stream_lock_try ops dice = (err, dice') -> err < 0 ->
     Dice.capture_open ops dice = (err, dice') /\
     Dice.playback_open ops dice = (err, dice')) /\
  (forall transport_start env substream motu,
     Motu.dev_lock motu = true ->
     Motu.pcm_open (Motu.spec_stream_ops transport_start) env substream motu =
       (- EBUSY, substream, motu)) /\
  (forall transport_start dice,
     Dice.dev_lock dice = true ->
     Dice.capture_open (Dice.spec_stream_ops transport_start) dice =
       (- EBUSY, dice) /\
     Dice.playback_open (Dice.spec_stream_ops transport_start) dice =
       (- EBUSY, dice)).
Proof.
  split; [|split; [|split; [|split; [|split; [|split; [|split]]]]]].
  - intros pre mid post motu.
    exact (lock_run_exclusive Motu.try_acquire Motu.release Motu.dev_lock
             motu_acquire_busy motu_acquire_free pre mid post motu).
  - intros pre mid post dice.
    exact (lock_run_exclusive Dice.try_acquire Dice.release Dice.dev_lock
             dice_acquire_busy dice_acquire_free pre mid post dice).
  - exact motu_acquire_busy.
  - exact dice_acquire_busy.
  - intros ops env substream motu err motu' E N.
    unfold Motu.pcm_open. rewrite E. now rewrite (ltb_neg_true _ N).
  - intros ops dice err dice' E N.
    unfold Dice.capture_open, Dice.playback_open. rewrite E.
    now rewrite (ltb_neg_true _ N).
  - intros transport_start env substream motu H.
    unfold Motu.pcm_open. cbn [Motu.snd_motu_stream_lock_try Motu.spec_stream_ops].
    now rewrite (motu_acquire_busy _ H).
  - intros transport_start dice H.
    unfold Dice.capture_open, Dice.playback_open.
    cbn [Dice.snd_dice_stream_lock_try Dice.spec_stream_ops].
    now rewrite (dice_acquire_busy _ H).
Qed.

Lemma exclusivity_lock_try_only_witness :
  lock_run Motu.try_acquire Motu.release
    [TryAcquire; TryAcquire; Release; TryAcquire] motu_idle =
    [0; - EBUSY; 0; 0] /\
  In Release [TryAcquire; Release] /\
  Motu.pcm_open (Motu.spec_stream_ops working_transport)
    (scenario_env (0, Motu.SND_MOTU_CLOCK_SOURCE_INTERNAL) (0, 48000))
    (playback_substream Motu.SNDRV_PCM_STATE_OPEN)
    (Motu.set_dev_lock motu_idle true) =
    (- EBUSY, playback_substream Motu.SNDRV_PCM_STATE_OPEN,
     Motu.set_dev_lock motu_idle true) /\
  Dice.capture_open (Dice.spec_stream_ops working_transport)
    (Dice.mk_dice true 1 true 48000) =
    (- EBUSY, Dice.mk_dice true 1 true 48000).
Proof.
  destruct exclusivity_lock_try_only
    as (Hrun & _ & _ & _ & _ & _ & Hopen & Hdice).
  split; [reflexivity|]. split; [|split].
  - apply (Hrun [] [TryAcquire; Release] [] motu_idle); reflexivity.
  - apply Hopen. reflexivity.
  - apply Hdice. reflexivity.
Defined.

(** ** Closing substreams *)

Lemma to_int_small (z : Z) :
  -2147483648 <= z <= 2147483647 -> to_int z = z.
Proof.
  intros H. unfold to_int. rewrite Z.mod_small by lia. lia.
Qed.

Lemma dice_close_spec (transport_start : Z -> Z) (dir : Dice.direction)
  (dice : Dice.snd_dice) :
  Dice.close (Dice.spec_stream_ops transport_start) dir dice =
  Dice.release (Dice.ensure_stopped (Dice.atomic_dec dice)).
Proof. destruct dir; reflexivity. Qed.

Lemma dice_close_counts (transport_start : Z -> Z) (dirs : list Dice.direction) :
  forall dice,
    Z.of_nat (length dirs) <= Dice.substreams_counter dice <= 2147483647 ->
    let d := fold_left
               (fun d dir => Dice.close (Dice.spec_stream_ops transport_start) dir d)
               dirs dice in
    Dice.substreams_counter d =
      Dice.substreams_counter dice - Z.of_nat (length dirs) /\
    Dice.running d =
      (if (0 <? Z.of_nat (length dirs)) &&
          (Dice.substreams_counter dice - Z.of_nat (length dirs) =? 0)
       then false else Dice.running dice).
Proof.
  induction dirs as [|dir dirs IH]; intros dice Hc; cbn zeta.
  - cbn. split; [lia|reflexivity].
  - cbn [fold_left]. rewrite dice_close_spec.
    set (d1 := Dice.release (Dice.ensure_stopped (Dice.atomic_dec dice))).
    cbn [length] in Hc |- *. rewrite Nat2Z.inj_succ in Hc |- *.
    assert (C1 : Dice.substreams_counter d1 = Dice.substreams_counter dice - 1).
    { subst d1. unfold Dice.release, Dice.ensure_stopped, Dice.atomic_dec.
      cbn [Dice.substreams_counter].
      rewrite to_int_small by lia.
      destruct (Dice.substreams_counter dice - 1 =? 0); reflexivity. }
    assert (R1 : Dice.running d1 =
                 if Dice.substreams_counter dice - 1 =? 0 then false
                 else Dice.running dice).
    { subst d1. unfold Dice.release, Dice.ensure_stopped, Dice.atomic_dec.
      cbn [Dice.substreams_counter].
      rewrite to_int_small by lia.
      destruct (Dice.substreams_counter dice - 1 =? 0); reflexivity. }
    destruct (IH d1) as (Cn & Rn); [lia|].
    cbn zeta in Cn, Rn. rewrite Cn, Rn, C1, R1. split; [lia|].
    replace (0 <? Z.succ (Z.of_nat (length dirs))) with true
      by (symmetry; apply Z.ltb_lt; lia).
    cbn [andb].
    replace (Dice.substreams_counter dice - Z.succ (Z.of_nat (length dirs)))
      with (Dice.substreams_counter dice - 1 - Z.of_nat (length dirs)) by lia.
    destruct (Dice.substreams_counter dice - 1 =? 0) eqn:E1;
      destruct (0 <? Z.of_nat (length dirs)) eqn:E2;
      destruct (Dice.substreams_counter dice - 1 - Z.of_nat (length dirs) =? 0) eqn:E3;
      cbn [andb]; try reflexivity;
      rewrite ?Z.eqb_eq, ?Z.eqb_neq, ?Z.ltb_lt, ?Z.ltb_ge in *; lia.
Qed.

Lemma to_uint_pred (z : Z) : 1 <= z <= UINT_MAX -> to_uint (z - 1) = z - 1.
Proof.
  unfold UINT_MAX. intros H. unfold to_uint. apply Z.mod_small. lia.
Qed.

Lemma motu_hw_free_spec (transport_start : Z -> Z) (env : Motu.collaborators)
  (substream : Motu.snd_pcm_substream) (motu : Motu.snd_motu) :
  let m := snd (Motu.hw_free_op (Motu.spec_stream_ops transport_start) env
                  substream motu) in
  let c := if Motu.is_state_open (Motu.state substream)
           then Motu.substreams_counter motu
           else to_uint (Motu.substreams_counter motu - 1) in
  Motu.substreams_counter m = c /\
  Motu.running m = (if c =? 0 then false else Motu.running motu) /\
  Motu.mutex m = false /\
  Motu.dev_lock m = Motu.dev_lock motu.
Proof.
  unfold Motu.hw_free_op, Motu.capture_hw_free, Motu.playback_hw_free.
  cbn [Motu.snd_motu_stream_stop_duplex Motu.spec_stream_ops].
  destruct (Motu.stream substream);
    destruct (Motu.is_state_open (Motu.state substream));
    cbn [negb snd]; unfold Motu.ensure_stopped;
    cbn [Motu.substreams_counter Motu.mutex_lock Motu.set_mutex
         Motu.set_substreams_counter];
    match goal with |- context [?x =? 0] => destruct (x =? 0) end;
    repeat split.
Qed.

Lemma motu_hw_free_counts (transport_start : Z -> Z) (env : Motu.collaborators)
  (subs : list Motu.snd_pcm_substream) :
  forall motu,
    Forall (fun s => Motu.state s <> Motu.SNDRV_PCM_STATE_OPEN) subs ->
    Z.of_nat (length subs) <= Motu.substreams_counter motu <= UINT_MAX ->
    let m := fold_left
               (fun m s => snd (Motu.hw_free_op
                                  (Motu.spec_stream_ops transport_start) env s m))
               subs motu in
    Motu.substreams_counter m =
      Motu.substreams_counter motu - Z.of_nat (length subs) /\
    Motu.running m =
      (if (0 <? Z.of_nat (length subs)) &&
          (Motu.substreams_counter motu - Z.of_nat (length subs) =? 0)
       then false else Motu.running motu).
Proof.
  induction subs as [|s subs IH]; intros motu Hs Hc; cbn zeta.
  - cbn. split; [lia|reflexivity].
  - cbn [fold_left].
    destruct (motu_hw_free_spec transport_start env s motu) as (C1 & R1 & _).
    set (m1 := snd (Motu.hw_free_op (Motu.spec_stream_ops transport_start)
                      env s motu)) in *.
    inversion Hs as [|? ? Hopen Hrest]; subst.
    assert (Ho : Motu.is_state_open (Motu.state s) = false).
    { destruct (Motu.state s); try reflexivity. now elim Hopen. }
    rewrite Ho in C1, R1.
    cbn [length] in Hc |- *. rewrite Nat2Z.inj_succ in Hc |- *.
    rewrite to_uint_pred in C1, R1 by lia.
    destruct (IH m1 Hrest) as (Cn & Rn); [lia|].
    cbn zeta in Cn, Rn. rewrite Cn, Rn, C1, R1. split; [lia|].
    replace (0 <? Z.succ (Z.of_nat (length subs))) with true
      by (symmetry; apply Z.ltb_lt; lia).
    cbn [andb].
    replace (Motu.substreams_counter motu - Z.succ (Z.of_nat (length subs)))
      with (Motu.substreams_counter motu - 1 - Z.of_nat (length subs)) by lia.
    destruct (Motu.substreams_counter motu - 1 =? 0) eqn:E1;
      destruct (0 <? Z.of_nat (length subs)) eqn:E2;
      destruct (Motu.substreams_counter motu - 1 - Z.of_nat (length subs) =? 0) eqn:E3;
      cbn [andb]; try reflexivity;
      rewrite ?Z.eqb_eq, ?Z.eqb_neq, ?Z.ltb_lt, ?Z.ltb_ge in *; lia.
Qed.

(** C8. On the close paths the stop operation runs on a device whose
    counter already reflects the departure: [capture_close] and
    [playback_close] decrement and then stop; [capture_hw_free] and
    [playback_hw_free] decrement (when the substream was counted, that is,
    when it is no longer in the OPEN state) and then stop, under the
    mutex.  The stream is torn down only with no substream left: a close
    that turns a running stream off leaves the counter at zero, and with N
    counted substreams on a running stream every close before the last
    leaves it running and the last one stops it. *)
Theorem close_stops_after_last_substream :
  (forall ops dice,
     exists seen,
       Dice.substreams_counter seen = to_int (Dice.substreams_counter dice - 1) /\
       Dice.capture_close ops dice =
         (0, Dice.snd_dice_stream_lock_release ops
               (Dice.snd_dice_stream_stop_duplex ops seen)) /\
       Dice.playback_close ops dice =
         (0, Dice.snd_dice_stream_lock_release ops
               (Dice.snd_dice_stream_stop_duplex ops seen))) /\
  (forall ops env substream motu,
     exists seen,
       Motu.substreams_counter seen =
         (if Motu.is_state_open (Motu.state substream)
          then Motu.substreams_counter motu
          else to_uint (Motu.substreams_counter motu - 1)) /\
       Motu.mutex seen = true /\
       Motu.capture_hw_free ops env substream motu =
         (Motu.snd_pcm_lib_free_vmalloc_buffer env substream,
          Motu.mutex_unlock (Motu.snd_motu_stream_stop_duplex ops seen)) /\
       Motu.playback_hw_free ops env substream motu =
         (Motu.snd_pcm_lib_free_vmalloc_buffer env substream,
          Motu.mutex_unlock (Motu.snd_motu_stream_stop_duplex ops seen))) /\
  (forall transport_start dir dice,
     Dice.running dice = true ->
     Dice.running
       (Dice.close (Dice.spec_stream_ops transport_start) dir dice) = false ->
     Dice.substreams_counter
       (Dice.close (Dice.spec_stream_ops transport_start) dir dice) = 0) /\
  (forall transport_start env substream motu,
     Motu.running motu = true ->
     Motu.running
       (snd (Motu.hw_free_op (Motu.spec_stream_ops transport_start) env
               substream motu)) = false ->
     Motu.substreams_counter
       (snd (Motu.hw_free_op (Motu.spec_stream_ops transport_start) env
               substream motu)) = 0) /\
  (forall transport_start dirs dice k,
     Dice.running dice = true ->
     Dice.substreams_counter dice = Z.of_nat (length dirs) ->
     Z.of_nat (length dirs) <= 2147483647 ->
     (k <= length dirs)%nat ->
     let d := fold_left
                (fun d dir =>
                   Dice.close (Dice.spec_stream_ops transport_start) dir d)
                (firstn k dirs) dice in
     Dice.substreams_counter d = Z.of_nat (length dirs) - Z.of_nat k /\
     ((k < length dirs)%nat -> Dice.running d = true) /\
     ((0 < k)%nat -> k = length dirs -> Dice.running d = false)) /\
  (forall transport_start env subs motu k,
     Forall (fun s => Motu.state s <> Motu.SNDRV_PCM_STATE_OPEN) subs ->
     Motu.running motu = true ->
     Motu.substreams_counter motu = Z.of_nat (length subs) ->
     Z.of_nat (length subs) <= UINT_MAX ->
     (k <= length subs)%nat ->
     let m := fold_left
                (fun m s =>
                   snd (Motu.hw_free_op (Motu.spec_stream_ops transport_start)
                          env s m))
                (firstn k subs) motu in
     Motu.substreams_counter m = Z.of_nat (length subs) - Z.of_nat k /\
     ((k < length subs)%nat -> Motu.running m = true) /\
     ((0 < k)%nat -> k = length subs -> Motu.running m = false)).
Proof.
  split; [|split; [|split; [|split; [|split]]]].
  - intros ops dice. exists (Dice.atomic_dec dice). repeat split.
  - intros ops env substream motu.
    exists (if negb (Motu.is_state_open (Motu.state substream))
            then Motu.set_substreams_counter (Motu.mutex_lock motu)
                   (to_uint (Motu.substreams_counter (Motu.mutex_lock motu) - 1))
            else Motu.mutex_lock motu).
    unfold Motu.capture_hw_free, Motu.playback_hw_free.
    destruct (Motu.is_state_open (Motu.state substream)); repeat split.
  - intros transport_start dir dice Hr. rewrite dice_close_spec.
    unfold Dice.release, Dice.ensure_stopped.
    destruct (Dice.substreams_counter (Dice.atomic_dec dice) =? 0) eqn:E;
      cbn [Dice.running Dice.substreams_counter Dice.atomic_dec].
    + intros _. now apply Z.eqb_eq in E.
    + rewrite Hr. discriminate.
  - intros transport_start env substream motu Hr.
    destruct (motu_hw_free_spec transport_start env substream motu)
      as (C & R & _).
    rewrite C, R.
    match goal with |- context [?x =? 0] => destruct (x =? 0) eqn:E end.
    + intros _. now apply Z.eqb_eq in E.
    + rewrite Hr. discriminate.
  - intros transport_start dirs dice k Hr Hc Hn Hk.
    destruct (dice_close_counts transport_start (firstn k dirs) dice)
      as (C & R).
    { rewrite length_firstn, Nat.min_l by assumption. lia. }
    cbn zeta in C, R |- *. rewrite C, R.
    rewrite length_firstn, Nat.min_l by assumption. rewrite Hc, Hr.
    split; [reflexivity|]. split.
    + intros Hlt.
      replace (Z.of_nat (length dirs) - Z.of_nat k =? 0) with false
        by (symmetry; apply Z.eqb_neq; lia).
      now rewrite andb_false_r.
    + intros Hpos ->. rewrite Z.sub_diag.
      replace (0 <? Z.of_nat (length dirs)) with true
        by (symmetry; apply Z.ltb_lt; lia).
      reflexivity.
  - intros transport_start env subs motu k Hs Hr Hc Hn Hk.
    destruct (motu_hw_free_counts transport_start env (firstn k subs) motu)
      as (C & R).
    { rewrite <- (firstn_skipn k subs) in Hs.
      apply Forall_app in Hs. apply Hs. }
    { rewrite length_firstn, Nat.min_l by assumption. lia. }
    cbn zeta in C, R |- *. rewrite C, R.
    rewrite length_firstn, Nat.min_l by assumption. rewrite Hc, Hr.
    split; [reflexivity|]. split.
    + intros Hlt.
      replace (Z.of_nat (length subs) - Z.of_nat k =? 0) with false
        by (symmetry; apply Z.eqb_neq; lia).
      now rewrite andb_false_r.
    + intros Hpos ->. rewrite Z.sub_diag.
      replace (0 <? Z.of_nat (length subs)) with true
        by (symmetry; apply Z.ltb_lt; lia).
      reflexivity.
Qed.

Lemma close_stops_after_last_substream_witness :
  let d2 := fold_left
              (fun d dir =>
                 Dice.close (Dice.spec_stream_ops working_transport) dir d)
              (firstn 2 [Dice.Capture; Dice.Playback; Dice.Capture])
              (Dice.mk_dice true 3 true 48000) in
  let m3 := fold_left
              (fun m s =>
                 snd (Motu.hw_free_op (Motu.spec_stream_ops working_transport)
                        (scenario_env (0, Motu.SND_MOTU_CLOCK_SOURCE_INTERNAL)
                           (0, 48000)) s m))
              (firstn 3 [capture_substream Motu.SNDRV_PCM_STATE_SETUP;
                         playback_substream Motu.SNDRV_PCM_STATE_PREPARED;
                         capture_substream Motu.SNDRV_PCM_STATE_RUNNING])
              (Motu.mk_motu true false 3 true 48000 false false
                 scenario_formats scenario_formats) in
  (Dice.substreams_counter d2 = 3 - 2 /\ Dice.running d2 = true) /\
  (Motu.substreams_counter m3 = 3 - 3 /\ Motu.running m3 = false).
Proof.
  destruct close_stops_after_last_substream as (_ & _ & _ & _ & Hd & Hm).
  cbv zeta. split.
  - destruct (Hd working_transport [Dice.Capture; Dice.Playback; Dice.Capture]
                (Dice.mk_dice true 3 true 48000) 2%nat)
      as (C & R & _).
    + reflexivity.
    + reflexivity.
    + cbn. lia.
    + cbn. lia.
    + split; [exact C|]. apply R. cbn. lia.
  - destruct (Hm working_transport
                (scenario_env (0, Motu.SND_MOTU_CLOCK_SOURCE_INTERNAL) (0, 48000))
                [capture_substream Motu.SNDRV_PCM_STATE_SETUP;
                 playback_substream Motu.SNDRV_PCM_STATE_PREPARED;
                 capture_substream Motu.SNDRV_PCM_STATE_RUNNING]
                (Motu.mk_motu true false 3 true 48000 false false
                   scenario_formats scenario_formats) 3%nat)
      as (C & _ & R).
    + repeat constructor; discriminate.
    + reflexivity.
    + reflexivity.
    + unfold UINT_MAX. cbn. lia.
    + cbn. lia.
    + split; [exact C|]. apply R; [lia|reflexivity].
Defined.

(** ** Counting substreams in hw_params and hw_free *)

Lemma to_uint_succ_pred (c : Z) :
  uint_range c -> to_uint (to_uint (c + 1) - 1) = c.
Proof.
  unfold uint_range, UINT_MAX, to_uint. intros H.
  rewrite Zminus_mod_idemp_l.
  replace (c + 1 - 1) with c by lia. apply Z.mod_small. lia.
Qed.

Lemma motu_hw_params_spec (env : Motu.collaborators)
  (substream : Motu.snd_pcm_substream) (hw_params : snd_pcm_hw_params)
  (motu : Motu.snd_motu) :
  Motu.substreams_counter
    (snd (Motu.hw_params_op env substream hw_params motu)) =
  if (0 <=? Motu.snd_pcm_lib_alloc_vmalloc_buffer env substream hw_params)
     && Motu.is_state_open (Motu.state substream)
  then to_uint (Motu.substreams_counter motu + 1)
  else Motu.substreams_counter motu.
Proof.
  unfold Motu.hw_params_op, Motu.capture_hw_params, Motu.playback_hw_params.
  destruct (Z.ltb_spec
              (Motu.snd_pcm_lib_alloc_vmalloc_buffer env substream hw_params) 0)
    as [N|P].
  - replace (0 <=? _) with false by (symmetry; apply Z.leb_gt; lia).
    destruct (Motu.stream substream); reflexivity.
  - replace (0 <=? _) with true by (symmetry; apply Z.leb_le; lia).
    destruct (Motu.stream substream);
      destruct (Motu.is_state_open (Motu.state substream)); reflexivity.
Qed.

Lemma is_state_open_iff (s : Motu.snd_pcm_state) :
  Motu.is_state_open s = true <-> s = Motu.SNDRV_PCM_STATE_OPEN.
Proof. destruct s; cbn; split; congruence. Qed.

Lemma motu_hw_params_not_open (env : Motu.collaborators)
  (calls : list (Motu.snd_pcm_substream * snd_pcm_hw_params)) :
  forall motu,
    Forall (fun c => Motu.state (fst c) <> Motu.SNDRV_PCM_STATE_OPEN) calls ->
    Motu.substreams_counter
      (fold_left
         (fun m c => snd (Motu.hw_params_op env (fst c) (snd c) m))
         calls motu) = Motu.substreams_counter motu.
Proof.
  induction calls as [|c calls IH]; intros motu Hc; [reflexivity|].
  inversion Hc as [|? ? Hc1 Hc2]; subst. cbn [fold_left].
  rewrite (IH _ Hc2), motu_hw_params_spec.
  destruct (Motu.is_state_open (Motu.state (fst c))) eqn:E.
  - apply is_state_open_iff in E. contradiction.
  - now rewrite andb_false_r.
Qed.

(** C10. [capture_hw_params] and [playback_hw_params] increment the
    counter exactly when the buffer was allocated and the substream is in
    the OPEN state; [capture_hw_free] and [playback_hw_free] decrement it
    exactly when the substream is no longer in the OPEN state.  So further
    [hw_params] calls on a substream that has left OPEN add nothing to the
    one increment of the first call, and a [hw_params] from OPEN followed,
    after any number of such further calls, by the [hw_free] of the
    substream puts the counter back to its original value. *)
Theorem hw_params_hw_free_counter_guard :
  (forall env substream hw_params motu,
     let motu' := snd (Motu.hw_params_op env substream hw_params motu) in
     (Motu.state substream <> Motu.SNDRV_PCM_STATE_OPEN ->
      Motu.substreams_counter motu' = Motu.substreams_counter motu) /\
     (Motu.snd_pcm_lib_alloc_vmalloc_buffer env substream hw_params < 0 ->
      Motu.substreams_counter motu' = Motu.substreams_counter motu) /\
     (Motu.state substream = Motu.SNDRV_PCM_STATE_OPEN ->
      0 <= Motu.snd_pcm_lib_alloc_vmalloc_buffer env substream hw_params ->
      Motu.substreams_counter motu' =
        to_uint (Motu.substreams_counter motu + 1))) /\
  (forall transport_start env substream motu,
     let motu' := snd (Motu.hw_free_op (Motu.spec_stream_ops transport_start)
                         env substream motu) in
     (Motu.state substream = Motu.SNDRV_PCM_STATE_OPEN ->
      Motu.substreams_counter motu' = Motu.substreams_counter motu) /\
     (Motu.state substream <> Motu.SNDRV_PCM_STATE_OPEN ->
      Motu.substreams_counter motu' =
        to_uint (Motu.substreams_counter motu - 1))) /\
  (forall env substream hw_params more motu,
     Forall (fun c => Motu.state (fst c) <> Motu.SNDRV_PCM_STATE_OPEN) more ->
     let motu1 := snd (Motu.hw_params_op env substream hw_params motu) in
     let motu2 :=
       fold_left (fun m c => snd (Motu.hw_params_op env (fst c) (snd c) m))
         more motu1 in
     Motu.substreams_counter motu2 = Motu.substreams_counter motu1 /\
     (Motu.substreams_counter motu1 = Motu.substreams_counter motu \/
      Motu.substreams_counter motu1 =
        to_uint (Motu.substreams_counter motu + 1))) /\
  (forall transport_start env substream hw_params more substream' motu,
     uint_range (Motu.substreams_counter motu) ->
     Motu.state substream = Motu.SNDRV_PCM_STATE_OPEN ->
     0 <= Motu.snd_pcm_lib_alloc_vmalloc_buffer env substream hw_params ->
     Forall (fun c => Motu.state (fst c) <> Motu.SNDRV_PCM_STATE_OPEN) more ->
     Motu.state substream' <> Motu.SNDRV_PCM_STATE_OPEN ->
     let ops := Motu.spec_stream_ops transport_start in
     let motu1 := snd (Motu.hw_params_op env substream hw_params motu) in
     let motu2 :=
       fold_left (fun m c => snd (Motu.hw_params_op env (fst c) (snd c) m))
         more motu1 in
     Motu.substreams_counter (snd (Motu.hw_free_op ops env substream' motu2)) =
       Motu.substreams_counter motu).
Proof.
  split; [|split; [|split]].
  - intros env substream hw_params motu motu'. subst motu'.
    rewrite motu_hw_params_spec. repeat split.
    + intros Hn.
      destruct (Motu.is_state_open (Motu.state substream)) eqn:E.
      * apply is_state_open_iff in E. contradiction.
      * now rewrite andb_false_r.
    + intros N.
      replace (0 <=? _) with false by (symmetry; apply Z.leb_gt; lia).
      reflexivity.
    + intros Ho P. apply is_state_open_iff in Ho. rewrite Ho.
      replace (0 <=? _) with true by (symmetry; apply Z.leb_le; lia).
      reflexivity.
  - intros transport_start env substream motu motu'. subst motu'.
    destruct (motu_hw_free_spec transport_start env substream motu) as (C & _).
    rewrite C. split.
    + intros Ho. apply is_state_open_iff in Ho. now rewrite Ho.
    + intros Hn.
      destruct (Motu.is_state_open (Motu.state substream)) eqn:E;
        [|reflexivity].
      apply is_state_open_iff in E. contradiction.
  - intros env substream hw_params more motu Hm motu1 motu2.
    subst motu2. rewrite (motu_hw_params_not_open env more motu1 Hm).
    split; [reflexivity|]. subst motu1. rewrite motu_hw_params_spec.
    destruct (_ && _); [now right|now left].
  - intros transport_start env substream hw_params more substream' motu
      Hu Ho P Hm Hn ops motu1 motu2.
    destruct (motu_hw_free_spec transport_start env substream' motu2) as (C & _).
    fold ops in C. rewrite C.
    destruct (Motu.is_state_open (Motu.state substream')) eqn:E.
    { apply is_state_open_iff in E. contradiction. }
    subst motu2. rewrite (motu_hw_params_not_open env more motu1 Hm).
    subst motu1. rewrite motu_hw_params_spec.
    apply is_state_open_iff in Ho. rewrite Ho.
    replace (0 <=? _) with true by (symmetry; apply Z.leb_le; lia).
    cbn [andb]. now apply to_uint_succ_pred.
Qed.

Lemma hw_params_hw_free_counter_guard_witness :
  let ops := Motu.spec_stream_ops working_transport in
  let env := scenario_env (0, Motu.SND_MOTU_CLOCK_SOURCE_INTERNAL) (0, 48000) in
  let params := mk_hw_params (closed_interval 2 2) (closed_interval 48000 48000) in
  let motu1 :=
    snd (Motu.hw_params_op env
           (capture_substream Motu.SNDRV_PCM_STATE_OPEN) params motu_idle) in
  let motu2 :=
    fold_left (fun m c => snd (Motu.hw_params_op env (fst c) (snd c) m))
      [(capture_substream Motu.SNDRV_PCM_STATE_SETUP, params);
       (capture_substream Motu.SNDRV_PCM_STATE_PREPARED, params)] motu1 in
  Motu.substreams_counter motu1 = to_uint (0 + 1) /\
  Motu.substreams_counter motu2 = Motu.substreams_counter motu1 /\
  Motu.substreams_counter
    (snd (Motu.hw_free_op ops env
            (capture_substream Motu.SNDRV_PCM_STATE_PREPARED) motu2)) = 0.
Proof.
  destruct hw_params_hw_free_counter_guard as (Hp & _ & Hr & Hpair).
  cbv zeta.
  assert (Hmore :
    Forall (fun c : Motu.snd_pcm_substream * snd_pcm_hw_params =>
              Motu.state (fst c) <> Motu.SNDRV_PCM_STATE_OPEN)
      [(capture_substream Motu.SNDRV_PCM_STATE_SETUP,
        mk_hw_params (closed_interval 2 2) (closed_interval 48000 48000));
       (capture_substream Motu.SNDRV_PCM_STATE_PREPARED,
        mk_hw_params (closed_interval 2 2) (closed_interval 48000 48000))]).
  { repeat constructor; discriminate. }
  split; [|split].
  - destruct (Hp (scenario_env (0, Motu.SND_MOTU_CLOCK_SOURCE_INTERNAL) (0, 48000))
                (capture_substream Motu.SNDRV_PCM_STATE_OPEN)
                (mk_hw_params (closed_interval 2 2) (closed_interval 48000 48000))
                motu_idle) as (_ & _ & H).
    apply H; [reflexivity|cbn; lia].
  - exact (proj1 (Hr _ _ _ _ _ Hmore)).
  - apply (Hpair working_transport).
    + unfold uint_range, UINT_MAX. cbn. lia.
    + reflexivity.
    + cbn. lia.
    + exact Hmore.
    + discriminate.
Defined.

(** * Further properties of the constraint solver *)

Lemma sel_dichotomy (sel : nat -> bool) (l : list nat) :
  (forall i, In i l -> sel i = false) \/ (exists i, In i l /\ sel i = true).
Proof.
  induction l as [|y l IHl]; [left; intros i []|].
  destruct (sel y) eqn:Sy.
  - right. exists y. split; [now left|assumption].
  - destruct IHl as [Hn|(i & Hi & Si)].
    + left. intros i [<-|Hi]; auto.
    + right. exists i. split; [now right|assumption].
Qed.

(** What the rate loop leaves in its accumulator, for any order [l] in
    which the indices are visited. *)
Lemma rate_fold_char (clock_rates : list Z) (formats : snd_motu_packet_format)
  (c : snd_interval) (l : list nat) :
  wf_clock_rates clock_rates ->
  wf_formats clock_rates formats ->
  let acc := fold_left (motu_rate_constraint_step clock_rates formats c) l
               empty_sentinel in
  let q i := In i l /\ snd_interval_test c (total_channels formats (i / 2)) = true in
  (forall i, q i -> min acc <= nth i clock_rates 0 <= max acc) /\
  ((forall i, ~ q i) -> acc = empty_sentinel) /\
  ((exists i, q i) ->
     (exists i, q i /\ nth i clock_rates 0 = min acc) /\
     (exists j, q j /\ nth j clock_rates 0 = max acc)) /\
  ((forall i, ~ q i) \/ (exists i, q i)) /\
  integer acc = true /\ openmin acc = false /\ openmax acc = false /\
  empty acc = false.
Proof.
  intros Hr Hf acc q.
  destruct (rate_loop_as_fold clock_rates formats c l empty_sentinel)
    as (E & F1 & F2 & F3 & F4).
  fold acc in E, F1, F2, F3, F4.
  destruct (fold_min_max_spec
              (fun i => snd_interval_test c (pcm_channels formats (i / 2)))
              (fun i => nth i clock_rates 0) l) as (Hb & He & Hw).
  { intros i _. now apply nth_uint_range. }
  cbn [min max empty_sentinel] in E. rewrite <- E in Hb, He, Hw.
  cbn [fst snd] in Hb, Hw.
  assert (Hq : forall i, q i <->
                 In i l /\
                 snd_interval_test c (pcm_channels formats (i / 2)) = true).
  { intros i. unfold q.
    destruct (pcm_channels_total clock_rates formats (i / 2) Hf) as [-> _].
    tauto. }
  split; [|split; [|split; [|split; [|repeat split; assumption]]]].
  - intros i Hi. apply Hq in Hi. now apply Hb.
  - intros Hn. apply interval_eta; try assumption.
    rewrite He; [reflexivity|]. intros i Hi.
    destruct (snd_interval_test c (pcm_channels formats (i / 2))) eqn:S;
      [|reflexivity].
    exfalso. apply (Hn i), Hq. now split.
  - intros (i & Hi). apply Hq in Hi.
    destruct Hw as ((i1 & H1 & S1 & E1) & (j1 & H2 & S2 & E2)).
    { now exists i. }
    split; [exists i1|exists j1]; (split; [apply Hq; now split|assumption]).
  - destruct (sel_dichotomy
                (fun i => snd_interval_test c (pcm_channels formats (i / 2))) l)
      as [Hn|(i & Hi & Si)].
    + left. intros i Hi. apply Hq in Hi. destruct Hi as [Hi Si].
      rewrite (Hn i Hi) in Si. discriminate.
    + right. exists i. apply Hq. now split.
Qed.

(** The same for the channel loop. *)
Lemma channels_fold_char (clock_rates : list Z)
  (formats : snd_motu_packet_format) (r : snd_interval) (l : list nat) :
  wf_clock_rates clock_rates ->
  wf_formats clock_rates formats ->
  let acc := fold_left (motu_channels_constraint_step clock_rates formats r) l
               empty_sentinel in
  let q i := In i l /\ snd_interval_test r (nth i clock_rates 0) = true in
  (forall i, q i -> min acc <= total_channels formats (i / 2) <= max acc) /\
  ((forall i, ~ q i) -> acc = empty_sentinel) /\
  ((exists i, q i) ->
     (exists i, q i /\ total_channels formats (i / 2) = min acc) /\
     (exists j, q j /\ total_channels formats (j / 2) = max acc)) /\
  ((forall i, ~ q i) \/ (exists i, q i)) /\
  integer acc = true /\ openmin acc = false /\ openmax acc = false /\
  empty acc = false.
Proof.
  intros Hr Hf acc q.
  destruct (channels_loop_as_fold clock_rates formats r l empty_sentinel)
    as (E & F1 & F2 & F3 & F4).
  fold acc in E, F1, F2, F3, F4.
  assert (Ht : forall m, pcm_channels formats m = total_channels formats m).
  { intros m. now destruct (pcm_channels_total clock_rates formats m Hf). }
  destruct (fold_min_max_spec
              (fun i => snd_interval_test r (nth i clock_rates 0))
              (fun i => pcm_channels formats (i / 2)) l) as (Hb & He & Hw).
  { intros i _. rewrite Ht.
    now destruct (pcm_channels_total clock_rates formats (i / 2) Hf). }
  cbn [min max empty_sentinel] in E. rewrite <- E in Hb, He, Hw.
  cbn [fst snd] in Hb, Hw.
  split; [|split; [|split; [|split; [|repeat split; assumption]]]].
  - intros i [Hi Si]. rewrite <- Ht. now apply Hb.
  - intros Hn. apply interval_eta; try assumption.
    rewrite He; [reflexivity|]. intros i Hi.
    destruct (snd_interval_test r (nth i clock_rates 0)) eqn:S; [|reflexivity].
    exfalso. apply (Hn i). now split.
  - intros (i & Hi).
    destruct Hw as ((i1 & H1 & S1 & E1) & (j1 & H2 & S2 & E2)).
    { exists i. exact Hi. }
    rewrite Ht in E1, E2.
    split; [exists i1|exists j1]; (split; [now split|assumption]).
  - destruct (sel_dichotomy
                (fun i => snd_interval_test r (nth i clock_rates 0)) l)
      as [Hn|(i & Hi & Si)].
    + left. intros i [Hi Si]. rewrite (Hn i Hi) in Si. discriminate.
    + right. exists i. now split.
Qed.

Lemma rate_pair_qualifies_seq (clock_rates : list Z)
  (formats : snd_motu_packet_format) (c : snd_interval) (i : nat) :
  rate_pair_qualifies clock_rates formats c i <->
  In i (seq 0 (length clock_rates)) /\
  snd_interval_test c (total_channels formats (i / 2)) = true.
Proof. unfold rate_pair_qualifies. rewrite in_seq. intuition lia. Qed.

Lemma channels_pair_qualifies_seq (clock_rates : list Z) (r : snd_interval)
  (i : nat) :
  channels_pair_qualifies clock_rates r i <->
  In i (seq 0 (length clock_rates)) /\
  snd_interval_test r (nth i clock_rates 0) = true.
Proof. unfold channels_pair_qualifies. rewrite in_seq. intuition lia. Qed.

Lemma total_channels_range (clock_rates : list Z)
  (formats : snd_motu_packet_format) (mode : nat) :
  wf_formats clock_rates formats -> 0 <= total_channels formats mode <= 510.
Proof.
  intros (Hf & Hd & _).
  pose proof (nth_uchar_range _ mode Hf) as H1.
  pose proof (nth_uchar_range _ mode Hd) as H2.
  unfold total_channels, uchar_range in *. lia.
Qed.

Lemma closed_interval_test (lo hi v : Z) :
  snd_interval_test (closed_interval lo hi) v = true <-> lo <= v <= hi.
Proof.
  unfold snd_interval_test, closed_interval. cbn [min max openmin openmax].
  rewrite !andb_false_r, !orb_false_r, negb_true_iff, orb_false_iff.
  rewrite Z.gtb_ltb, !Z.ltb_ge. lia.
Qed.

(** Both bounds of an accumulator stay in the range between the two
    sentinel values. *)
Lemma rate_loop_range (clock_rates : list Z) (formats : snd_motu_packet_format)
  (c : snd_interval) :
  wf_clock_rates clock_rates ->
  wf_formats clock_rates formats ->
  min (motu_rate_constraint_loop clock_rates formats c) <= UINT_MAX /\
  0 <= max (motu_rate_constraint_loop clock_rates formats c).
Proof.
  intros Hr Hf.
  destruct (rate_fold_char clock_rates formats c (seq 0 (length clock_rates))
              Hr Hf) as (_ & He & Hw & [Hn|Hex] & _).
  - unfold motu_rate_constraint_loop. rewrite (He Hn). cbn. unfold UINT_MAX. lia.
  - destruct (Hw Hex) as ((i & _ & Ei) & (j & _ & Ej)).
    unfold motu_rate_constraint_loop. rewrite <- Ei, <- Ej.
    pose proof (nth_uint_range clock_rates i Hr) as [_ H1].
    pose proof (nth_uint_range clock_rates j Hr) as [H2 _].
    split; assumption.
Qed.

Lemma channels_loop_range (clock_rates : list Z)
  (formats : snd_motu_packet_format) (r : snd_interval) :
  wf_clock_rates clock_rates ->
  wf_formats clock_rates formats ->
  min (motu_channels_constraint_loop clock_rates formats r) <= UINT_MAX /\
  0 <= max (motu_channels_constraint_loop clock_rates formats r).
Proof.
  intros Hr Hf.
  destruct (channels_fold_char clock_rates formats r
              (seq 0 (length clock_rates)) Hr Hf)
    as (_ & He & Hw & [Hn|Hex] & _).
  - unfold motu_channels_constraint_loop. rewrite (He Hn). cbn.
    unfold UINT_MAX. lia.
  - destruct (Hw Hex) as ((i & _ & Ei) & (j & _ & Ej)).
    unfold motu_channels_constraint_loop. rewrite <- Ei, <- Ej.
    pose proof (total_channels_range clock_rates formats (i / 2) Hf).
    pose proof (total_channels_range clock_rates formats (j / 2) Hf).
    unfold UINT_MAX. lia.
Qed.

(** X1. The interval a rule accumulates is empty in the framework's sense
    ([min > max]) exactly when no table entry takes part: some pair
    qualifies iff [min <= max], and no pair qualifies iff the accumulator
    is still the sentinel.  The accumulator is always an integer interval
    with closed ends and a clear [empty] flag. *)
Theorem solver_empty_iff_no_pair
  (clock_rates : list Z) (formats : snd_motu_packet_format)
  (c r : snd_interval) :
  wf_clock_rates clock_rates ->
  wf_formats clock_rates formats ->
  let rates := motu_rate_constraint_loop clock_rates formats c in
  let channels := motu_channels_constraint_loop clock_rates formats r in
  ((exists i, rate_pair_qualifies clock_rates formats c i) <->
     min rates <= max rates) /\
  ((forall i, ~ rate_pair_qualifies clock_rates formats c i) <->
     rates = empty_sentinel) /\
  ((exists i, channels_pair_qualifies clock_rates r i) <->
     min channels <= max channels) /\
  ((forall i, ~ channels_pair_qualifies clock_rates r i) <->
     channels = empty_sentinel) /\
  (integer rates = true /\ openmin rates = false /\ openmax rates = false /\
   empty rates = false) /\
  (integer channels = true /\ openmin channels = false /\
   openmax channels = false /\ empty channels = false).
Proof.
  intros Hr Hf rates channels.
  destruct (rate_fold_char clock_rates formats c (seq 0 (length clock_rates))
              Hr Hf) as (Rb & Re & Rw & Rd & Rf).
  destruct (channels_fold_char clock_rates formats r
              (seq 0 (length clock_rates)) Hr Hf)
    as (Cb & Ce & Cw & Cd & Cf).
  fold (motu_rate_constraint_loop clock_rates formats c) in Rb, Re, Rw, Rf.
  fold (motu_channels_constraint_loop clock_rates formats r) in Cb, Ce, Cw, Cf.
  fold rates in Rb, Re, Rw, Rf. fold channels in Cb, Ce, Cw, Cf.
  assert (S0 : ~ min empty_sentinel <= max empty_sentinel).
  { cbn. unfold UINT_MAX. lia. }
  split; [|split; [|split; [|split; [|split; assumption]]]].
  - split.
    + intros (i & Hi). apply rate_pair_qualifies_seq in Hi.
      specialize (Rb i Hi). lia.
    + intros Hle. destruct Rd as [Hn|(i & Hi)].
      * rewrite (Re Hn) in Hle. contradiction.
      * exists i. now apply rate_pair_qualifies_seq.
  - split.
    + intros Hn. apply Re. intros i Hi. apply (Hn i).
      now apply rate_pair_qualifies_seq.
    + intros E i Hi. apply rate_pair_qualifies_seq in Hi.
      specialize (Rb i Hi). rewrite E in Rb. apply S0. lia.
  - split.
    + intros (i & Hi). apply channels_pair_qualifies_seq in Hi.
      specialize (Cb i Hi). lia.
    + intros Hle. destruct Cd as [Hn|(i & Hi)].
      * rewrite (Ce Hn) in Hle. contradiction.
      * exists i. now apply channels_pair_qualifies_seq.
  - split.
    + intros Hn. apply Ce. intros i Hi. apply (Hn i).
      now apply channels_pair_qualifies_seq.
    + intros E i Hi. apply channels_pair_qualifies_seq in Hi.
      specialize (Cb i Hi). rewrite E in Cb. apply S0. lia.
Qed.

Lemma solver_empty_iff_no_pair_witness :
  wf_clock_rates scenario_clock_rates /\
  wf_formats scenario_clock_rates scenario_formats /\
  ((exists i, rate_pair_qualifies scenario_clock_rates scenario_formats
                (closed_interval 3 3) i) <->
   min (motu_rate_constraint_loop scenario_clock_rates scenario_formats
          (closed_interval 3 3)) <=
   max (motu_rate_constraint_loop scenario_clock_rates scenario_formats
          (closed_interval 3 3))).
Proof.
  destruct scenario_table_wf as [Hr Hf].
  split; [exact Hr|split; [exact Hf|]].
  exact (proj1 (solver_empty_iff_no_pair scenario_clock_rates scenario_formats
                  (closed_interval 3 3) (closed_interval 0 0) Hr Hf)).
Defined.

(** X2. Both rules are monotone in the candidate interval: when every
    value admitted by one candidate is admitted by another, the interval
    accumulated for the first lies within the interval accumulated for the
    second. *)
Theorem solver_rules_monotone
  (clock_rates : list Z) (formats : snd_motu_packet_format) :
  wf_clock_rates clock_rates ->
  wf_formats clock_rates formats ->
  (forall c c',
     (forall v, snd_interval_test c v = true -> snd_interval_test c' v = true) ->
     min (motu_rate_constraint_loop clock_rates formats c') <=
       min (motu_rate_constraint_loop clock_rates formats c) /\
     max (motu_rate_constraint_loop clock_rates formats c) <=
       max (motu_rate_constraint_loop clock_rates formats c')) /\
  (forall r r',
     (forall v, snd_interval_test r v = true -> snd_interval_test r' v = true) ->
     min (motu_channels_constraint_loop clock_rates formats r') <=
       min (motu_channels_constraint_loop clock_rates formats r) /\
     max (motu_channels_constraint_loop clock_rates formats r) <=
       max (motu_channels_constraint_loop clock_rates formats r')).
Proof.
  intros Hr Hf. split.
  - intros c c' Hsub.
    destruct (rate_fold_char clock_rates formats c (seq 0 (length clock_rates))
                Hr Hf) as (_ & Re & Rw & Rd & _).
    destruct (rate_fold_char clock_rates formats c' (seq 0 (length clock_rates))
                Hr Hf) as (Rb' & _).
    fold (motu_rate_constraint_loop clock_rates formats c) in Re, Rw.
    fold (motu_rate_constraint_loop clock_rates formats c') in Rb'.
    destruct (rate_loop_range clock_rates formats c' Hr Hf) as [U L].
    destruct Rd as [Hn|Hex].
    + rewrite (Re Hn). cbn [min max empty_sentinel]. split; assumption.
    + destruct (Rw Hex) as ((i & (Hi & Si) & Ei) & (j & (Hj & Sj) & Ej)).
      rewrite <- Ei, <- Ej. split.
      * apply (Rb' i). split; [assumption|now apply Hsub].
      * apply (Rb' j). split; [assumption|now apply Hsub].
  - intros r r' Hsub.
    destruct (channels_fold_char clock_rates formats r
                (seq 0 (length clock_rates)) Hr Hf) as (_ & Ce & Cw & Cd & _).
    destruct (channels_fold_char clock_rates formats r'
                (seq 0 (length clock_rates)) Hr Hf) as (Cb' & _).
    fold (motu_channels_constraint_loop clock_rates formats r) in Ce, Cw.
    fold (motu_channels_constraint_loop clock_rates formats r') in Cb'.
    destruct (channels_loop_range clock_rates formats r' Hr Hf) as [U L].
    destruct Cd as [Hn|Hex].
    + rewrite (Ce Hn). cbn [min max empty_sentinel]. split; assumption.
    + destruct (Cw Hex) as ((i & (Hi & Si) & Ei) & (j & (Hj & Sj) & Ej)).
      rewrite <- Ei, <- Ej. split.
      * apply (Cb' i). split; [assumption|now apply Hsub].
      * apply (Cb' j). split; [assumption|now apply Hsub].
Qed.

Lemma solver_rules_monotone_witness :
  min (motu_rate_constraint_loop scenario_clock_rates scenario_formats
         (closed_interval 2 4)) <=
  min (motu_rate_constraint_loop scenario_clock_rates scenario_formats
         (closed_interval 4 4)) /\
  max (motu_rate_constraint_loop scenario_clock_rates scenario_formats
         (closed_interval 4 4)) <=
  max (motu_rate_constraint_loop scenario_clock_rates scenario_formats
         (closed_interval 2 4)).
Proof.
  destruct scenario_table_wf as [Hr Hf].
  apply (proj1 (solver_rules_monotone scenario_clock_rates scenario_formats
                  Hr Hf)).
  intros v Hv. apply closed_interval_test in Hv. apply closed_interval_test.
  lia.
Defined.

(** X3. The two rules never exclude each other's survivors.  Every pair
    admitted by the rate rule for a channel candidate is admitted by the
    channel rule run on the accumulated rate interval, and its channel
    count lies in the channel interval that rule accumulates; likewise
    with the roles of rate and channels exchanged. *)
Theorem solver_round_trip
  (clock_rates : list Z) (formats : snd_motu_packet_format) :
  wf_clock_rates clock_rates ->
  wf_formats clock_rates formats ->
  (forall c i,
     let rates := motu_rate_constraint_loop clock_rates formats c in
     let back := closed_interval (min rates) (max rates) in
     let channels := motu_channels_constraint_loop clock_rates formats back in
     rate_pair_qualifies clock_rates formats c i ->
     channels_pair_qualifies clock_rates back i /\
     min channels <= total_channels formats (i / 2) <= max channels) /\
  (forall r i,
     let channels := motu_channels_constraint_loop clock_rates formats r in
     let back := closed_interval (min channels) (max channels) in
     let rates := motu_rate_constraint_loop clock_rates formats back in
     channels_pair_qualifies clock_rates r i ->
     rate_pair_qualifies clock_rates formats back i /\
     min rates <= nth i clock_rates 0 <= max rates).
Proof.
  intros Hr Hf. split.
  - intros c i rates back channels Hi.
    destruct (rate_fold_char clock_rates formats c (seq 0 (length clock_rates))
                Hr Hf) as (Rb & _).
    fold (motu_rate_constraint_loop clock_rates formats c) in Rb.
    fold rates in Rb.
    destruct (channels_fold_char clock_rates formats back
                (seq 0 (length clock_rates)) Hr Hf) as (Cb & _).
    fold (motu_channels_constraint_loop clock_rates formats back) in Cb.
    fold channels in Cb.
    pose proof Hi as Hi'. apply rate_pair_qualifies_seq in Hi'.
    assert (Hq : channels_pair_qualifies clock_rates back i).
    { split; [apply Hi|]. apply closed_interval_test. now apply Rb. }
    split; [exact Hq|]. apply Cb. now apply channels_pair_qualifies_seq.
  - intros r i channels back rates Hi.
    destruct (channels_fold_char clock_rates formats r
                (seq 0 (length clock_rates)) Hr Hf) as (Cb & _).
    fold (motu_channels_constraint_loop clock_rates formats r) in Cb.
    fold channels in Cb.
    destruct (rate_fold_char clock_rates formats back
                (seq 0 (length clock_rates)) Hr Hf) as (Rb & _).
    fold (motu_rate_constraint_loop clock_rates formats back) in Rb.
    fold rates in Rb.
    pose proof Hi as Hi'. apply channels_pair_qualifies_seq in Hi'.
    assert (Hq : rate_pair_qualifies clock_rates formats back i).
    { split; [apply Hi|]. apply closed_interval_test. now apply Cb. }
    split; [exact Hq|]. apply Rb. now apply rate_pair_qualifies_seq.
Qed.

Lemma solver_round_trip_witness :
  channels_pair_qualifies scenario_clock_rates
    (closed_interval
       (min (motu_rate_constraint_loop scenario_clock_rates scenario_formats
               (closed_interval 4 4)))
       (max (motu_rate_constraint_loop scenario_clock_rates scenario_formats
               (closed_interval 4 4)))) 2 /\
  min (motu_channels_constraint_loop scenario_clock_rates scenario_formats
         (closed_interval
            (min (motu_rate_constraint_loop scenario_clock_rates
                    scenario_formats (closed_interval 4 4)))
            (max (motu_rate_constraint_loop scenario_clock_rates
                    scenario_formats (closed_interval 4 4))))) <=
  total_channels scenario_formats (2 / 2) <=
  max (motu_channels_constraint_loop scenario_clock_rates scenario_formats
         (closed_interval
            (min (motu_rate_constraint_loop scenario_clock_rates
                    scenario_formats (closed_interval 4 4)))
            (max (motu_rate_constraint_loop scenario_clock_rates
                    scenario_formats (closed_interval 4 4))))).
Proof.
  destruct scenario_table_wf as [Hr Hf].
  apply (proj1 (solver_round_trip scenario_clock_rates scenario_formats Hr Hf)
           (closed_interval 4 4) 2%nat).
  split; [cbn; lia|reflexivity].
Defined.

(** X4. The result of either rule does not depend on the order in which
    the table is walked: visiting the indices of the rate table in any
    permuted order leaves the same accumulator as the loop from 0
    upwards. *)
Theorem solver_order_independent
  (clock_rates : list Z) (formats : snd_motu_packet_format)
  (c r : snd_interval) (l : list nat) :
  wf_clock_rates clock_rates ->
  wf_formats clock_rates formats ->
  Permutation l (seq 0 (length clock_rates)) ->
  fold_left (motu_rate_constraint_step clock_rates formats c) l empty_sentinel =
    motu_rate_constraint_loop clock_rates formats c /\
  fold_left (motu_channels_constraint_step clock_rates formats r) l
    empty_sentinel =
    motu_channels_constraint_loop clock_rates formats r.
Proof.
  intros Hr Hf Hp.
  assert (Hin : forall i, In i l <-> In i (seq 0 (length clock_rates))).
  { intros i. split; apply Permutation_in;
      [assumption|now apply Permutation_sym]. }
  split.
  - destruct (rate_fold_char clock_rates formats c l Hr Hf)
      as (Lb & Le & Lw & Ld & L1 & L2 & L3 & L4).
    destruct (rate_fold_char clock_rates formats c
                (seq 0 (length clock_rates)) Hr Hf)
      as (Sb & Se & Sw & Sd & S1 & S2 & S3 & S4).
    fold (motu_rate_constraint_loop clock_rates formats c)
      in Sb, Se, Sw, S1, S2, S3, S4.
    destruct Sd as [Hn|Hex].
    + rewrite (Se Hn). apply Le. intros i [Hi Si]. apply (Hn i).
      split; [now apply Hin|assumption].
    + assert (Hex' : exists i, In i l /\
                snd_interval_test c (total_channels formats (i / 2)) = true).
      { destruct Hex as (i & Hi & Si). exists i.
        split; [now apply Hin|assumption]. }
      destruct (Sw Hex) as ((i & (Hi & Si) & Ei) & (j & (Hj & Sj) & Ej)).
      destruct (Lw Hex') as ((i' & (Hi' & Si') & Ei') & (j' & (Hj' & Sj') & Ej')).
      apply interval_eta; try congruence.
      assert (A1 := Lb i (conj (proj2 (Hin i) Hi) Si)).
      assert (A2 := Lb j (conj (proj2 (Hin j) Hj) Sj)).
      assert (A3 := Sb i' (conj (proj1 (Hin i') Hi') Si')).
      assert (A4 := Sb j' (conj (proj1 (Hin j') Hj') Sj')).
      f_equal; lia.
  - destruct (channels_fold_char clock_rates formats r l Hr Hf)
      as (Lb & Le & Lw & Ld & L1 & L2 & L3 & L4).
    destruct (channels_fold_char clock_rates formats r
                (seq 0 (length clock_rates)) Hr Hf)
      as (Sb & Se & Sw & Sd & S1 & S2 & S3 & S4).
    fold (motu_channels_constraint_loop clock_rates formats r)
      in Sb, Se, Sw, S1, S2, S3, S4.
    destruct Sd as [Hn|Hex].
    + rewrite (Se Hn). apply Le. intros i [Hi Si]. apply (Hn i).
      split; [now apply Hin|assumption].
    + assert (Hex' : exists i, In i l /\
                snd_interval_test r (nth i clock_rates 0) = true).
      { destruct Hex as (i & Hi & Si). exists i.
        split; [now apply Hin|assumption]. }
      destruct (Sw Hex) as ((i & (Hi & Si) & Ei) & (j & (Hj & Sj) & Ej)).
      destruct (Lw Hex') as ((i' & (Hi' & Si') & Ei') & (j' & (Hj' & Sj') & Ej')).
      apply interval_eta; try congruence.
      assert (A1 := Lb i (conj (proj2 (Hin i) Hi) Si)).
      assert (A2 := Lb j (conj (proj2 (Hin j) Hj) Sj)).
      assert (A3 := Sb i' (conj (proj1 (Hin i') Hi') Si')).
      assert (A4 := Sb j' (conj (proj1 (Hin j') Hj') Sj')).
      f_equal; lia.
Qed.

Lemma solver_order_independent_witness :
  fold_left
    (motu_rate_constraint_step scenario_clock_rates scenario_formats
       (closed_interval 2 4))
    [3; 1; 0; 2]%nat empty_sentinel =
  motu_rate_constraint_loop scenario_clock_rates scenario_formats
    (closed_interval 2 4).
Proof.
  destruct scenario_table_wf as [Hr Hf].
  refine (proj1 (solver_order_independent scenario_clock_rates scenario_formats
                   (closed_interval 2 4) (closed_interval 0 0)
                   [3; 1; 0; 2]%nat Hr Hf _)).
  cbn [scenario_clock_rates length seq].
  apply Permutation_sym.
  apply (perm_trans (l' := [1; 0; 2; 3]%nat)).
  - apply perm_swap.
  - apply (perm_trans (l' := [1; 0; 3; 2]%nat)).
    + do 2 apply perm_skip. apply perm_swap.
    + apply (perm_trans (l' := [1; 3; 0; 2]%nat)).
      * apply perm_skip. apply perm_swap.
      * apply perm_swap.
Defined.

(** * Further properties of the capability window *)

(** What the loop of [limit_channels_and_rates] leaves in the hardware
    description, before the framework derives the rate bounds. *)
Lemma limit_loop_char (clock_rates : list Z) (rate_bit : Z -> Z)
  (formats : snd_motu_packet_format) (hw : snd_pcm_hardware) :
  wf_formats clock_rates formats ->
  let hw1 := limit_channels_and_rates_loop clock_rates rate_bit formats hw in
  (forall n, Z.testbit (hw_rates hw1) n = true <->
     Z.testbit (hw_rates hw) n = true \/
     exists i, entry_has_channels clock_rates formats i /\
               Z.testbit (rate_bit (nth i clock_rates 0)) n = true) /\
  (forall i, entry_has_channels clock_rates formats i ->
     hw_channels_min hw1 <= total_channels formats (i / 2) <= hw_channels_max hw1) /\
  ((forall i, ~ entry_has_channels clock_rates formats i) ->
     hw_channels_min hw1 = UINT_MAX /\ hw_channels_max hw1 = 0) /\
  ((exists i, entry_has_channels clock_rates formats i) ->
     (exists i, entry_has_channels clock_rates formats i /\
                total_channels formats (i / 2) = hw_channels_min hw1) /\
     (exists j, entry_has_channels clock_rates formats j /\
                total_channels formats (j / 2) = hw_channels_max hw1)) /\
  ((forall i, ~ entry_has_channels clock_rates formats i) \/
   (exists i, entry_has_channels clock_rates formats i)) /\
  (hw_channels_min hw1, hw_channels_max hw1) =
    fold_min_max (fun i => negb (pcm_channels formats (i / 2) =? 0))
      (fun i => pcm_channels formats (i / 2)) (seq 0 (length clock_rates))
      (UINT_MAX, 0).
Proof.
  intros Hf hw1.
  destruct (limit_loop_as_fold clock_rates rate_bit formats
              (seq 0 (length clock_rates))
              (mk_hardware (hw_formats hw) (hw_rates hw) (hw_rate_min hw)
                 (hw_rate_max hw) UINT_MAX 0)) as (E & _ & _ & _ & B).
  fold (limit_channels_and_rates_loop clock_rates rate_bit formats hw) in E, B.
  fold hw1 in E, B.
  cbn [hw_rates hw_channels_min hw_channels_max] in E, B.
  assert (Ht : forall m, pcm_channels formats m = total_channels formats m).
  { intros m. now destruct (pcm_channels_total clock_rates formats m Hf). }
  destruct (fold_min_max_spec
              (fun i => negb (pcm_channels formats (i / 2) =? 0))
              (fun i => pcm_channels formats (i / 2)) (seq 0 (length clock_rates)))
    as (Hb & He & Hw).
  { intros i _. rewrite Ht.
    now destruct (pcm_channels_total clock_rates formats (i / 2) Hf). }
  rewrite <- E in Hb, He, Hw. cbn [fst snd] in Hb, Hw.
  assert (Hq : forall i, entry_has_channels clock_rates formats i <->
                 In i (seq 0 (length clock_rates)) /\
                 negb (pcm_channels formats (i / 2) =? 0) = true).
  { intros i. unfold entry_has_channels.
    rewrite in_seq, negb_true_iff, Z.eqb_neq, Ht. intuition lia. }
  assert (Hd : (forall i, ~ entry_has_channels clock_rates formats i) \/
               (exists i, entry_has_channels clock_rates formats i)).
  { destruct (sel_dichotomy
                (fun i => negb (pcm_channels formats (i / 2) =? 0))
                (seq 0 (length clock_rates))) as [Hn|(i & Hi & Si)].
    - left. intros i Hi. apply Hq in Hi. destruct Hi as [Hi Si].
      rewrite (Hn i Hi) in Si. discriminate.
    - right. exists i. apply Hq. now split. }
  split; [|split; [|split; [|split; [|split; [exact Hd|exact E]]]]].
  - intros n. rewrite B. split.
    + intros [H|(i & Hin & Hnz & Hbit)]; [now left|].
      right. exists i. split; [|assumption]. apply Hq. split; [assumption|].
      now rewrite negb_true_iff, Z.eqb_neq.
    + intros [H|(i & Hi & Hbit)]; [now left|].
      right. exists i. apply Hq in Hi. destruct Hi as [Hin Hs].
      split; [assumption|]. split; [|assumption].
      now rewrite negb_true_iff, Z.eqb_neq in Hs.
  - intros i Hi. apply Hq in Hi. destruct Hi. rewrite <- Ht. now apply Hb.
  - intros Hn.
    assert (E0 : (hw_channels_min hw1, hw_channels_max hw1) = (UINT_MAX, 0)).
    { apply He. intros i Hi.
      destruct (negb (pcm_channels formats (i / 2) =? 0)) eqn:S; [|reflexivity].
      exfalso. apply (Hn i), Hq. now split. }
    now injection E0.
  - intros (i & Hi). apply Hq in Hi.
    destruct Hw as ((i1 & H1 & S1 & E1) & (j1 & H2 & S2 & E2)).
    { now exists i. }
    rewrite Ht in E1, E2.
    split; [exists i1|exists j1]; (split; [apply Hq; now split|assumption]).
Qed.

Lemma testbit_true_iff_eq (a b : Z) :
  (forall n, Z.testbit a n = true <-> Z.testbit b n = true) -> a = b.
Proof.
  intros H. apply Z.bits_inj'. intros n _.
  apply eq_true_iff_eq. apply H.
Qed.

(** X5. The two edge cases of the channel window.  When no mode has any
    channel, [limit_channels_and_rates] adds no rate to the mask and leaves
    the channel bounds inverted ([channels_min = UINT_MAX],
    [channels_max = 0]).  As soon as one mode has channels the bounds are
    proper: [1 <= channels_min <= channels_max <= 510]; a mode without
    channels never pulls the minimum down to 0. *)
Theorem limit_channels_and_rates_edges
  (clock_rates : list Z) (rate_bit : Z -> Z)
  (limit : snd_pcm_hardware -> snd_pcm_hardware)
  (formats : snd_motu_packet_format) (hw : snd_pcm_hardware) :
  wf_formats clock_rates formats ->
  (forall h, hw_rates (limit h) = hw_rates h /\
             hw_channels_min (limit h) = hw_channels_min h /\
             hw_channels_max (limit h) = hw_channels_max h) ->
  let hw' := limit_channels_and_rates clock_rates rate_bit limit formats hw in
  ((forall i, ~ entry_has_channels clock_rates formats i) ->
     hw_rates hw' = hw_rates hw /\
     hw_channels_min hw' = UINT_MAX /\ hw_channels_max hw' = 0) /\
  ((exists i, entry_has_channels clock_rates formats i) ->
     1 <= hw_channels_min hw' /\
     hw_channels_min hw' <= hw_channels_max hw' /\
     hw_channels_max hw' <= 510).
Proof.
  intros Hf Hl hw'.
  destruct (Hl (limit_channels_and_rates_loop clock_rates rate_bit formats hw))
    as (L1 & L2 & L3).
  fold (limit_channels_and_rates clock_rates rate_bit limit formats hw) in L1, L2, L3.
  fold hw' in L1, L2, L3.
  destruct (limit_loop_char clock_rates rate_bit formats hw Hf)
    as (B & Hb & He & Hw & _).
  rewrite <- L1 in B. rewrite <- L2, <- L3 in Hb, He, Hw.
  split.
  - intros Hn. split; [|now apply He].
    apply testbit_true_iff_eq. intros n. rewrite B. split.
    + intros [H|(i & Hi & _)]; [assumption|]. now elim (Hn i).
    + intros H. now left.
  - intros Hex.
    destruct (Hw Hex) as ((i & Hi & Ei) & (j & Hj & Ej)).
    pose proof (Hb i Hi) as Bi.
    pose proof (total_channels_range clock_rates formats (i / 2) Hf) as Ri.
    pose proof (total_channels_range clock_rates formats (j / 2) Hf) as Rj.
    destruct Hi as [_ Nz]. lia.
Qed.

Lemma limit_channels_and_rates_edges_witness :
  1 <= hw_channels_min
         (limit_channels_and_rates scenario_clock_rates known_rate_to_rate_bit
            limit_hw_rates_by_mask scenario_formats blank_hardware) /\
  hw_channels_min
    (limit_channels_and_rates scenario_clock_rates known_rate_to_rate_bit
       limit_hw_rates_by_mask scenario_formats blank_hardware) <=
  hw_channels_max
    (limit_channels_and_rates scenario_clock_rates known_rate_to_rate_bit
       limit_hw_rates_by_mask scenario_formats blank_hardware) /\
  hw_channels_max
    (limit_channels_and_rates scenario_clock_rates known_rate_to_rate_bit
       limit_hw_rates_by_mask scenario_formats blank_hardware) <= 510.
Proof.
  destruct scenario_table_wf as [_ Hf].
  apply (proj2 (limit_channels_and_rates_edges scenario_clock_rates
                  known_rate_to_rate_bit limit_hw_rates_by_mask
                  scenario_formats blank_hardware Hf
                  limit_hw_rates_by_mask_frame)).
  exists 0%nat. split; [cbn; lia|cbn; lia].
Defined.

(** X6. [limit_channels_and_rates] never clears a bit of the rate mask
    it is given, and running it again on its own result changes neither
    the mask nor the channel bounds. *)
Theorem limit_channels_and_rates_idempotent
  (clock_rates : list Z) (rate_bit : Z -> Z)
  (limit : snd_pcm_hardware -> snd_pcm_hardware)
  (formats : snd_motu_packet_format) (hw : snd_pcm_hardware) :
  wf_formats clock_rates formats ->
  (forall h, hw_rates (limit h) = hw_rates h /\
             hw_channels_min (limit h) = hw_channels_min h /\
             hw_channels_max (limit h) = hw_channels_max h) ->
  let hw1 := limit_channels_and_rates clock_rates rate_bit limit formats hw in
  let hw2 := limit_channels_and_rates clock_rates rate_bit limit formats hw1 in
  (forall n, Z.testbit (hw_rates hw) n = true ->
             Z.testbit (hw_rates hw1) n = true) /\
  hw_rates hw2 = hw_rates hw1 /\
  hw_channels_min hw2 = hw_channels_min hw1 /\
  hw_channels_max hw2 = hw_channels_max hw1.
Proof.
  intros Hf Hl hw1 hw2.
  destruct (Hl (limit_channels_and_rates_loop clock_rates rate_bit formats hw))
    as (L1 & L2 & L3).
  fold (limit_channels_and_rates clock_rates rate_bit limit formats hw) in L1, L2, L3.
  fold hw1 in L1, L2, L3.
  destruct (Hl (limit_channels_and_rates_loop clock_rates rate_bit formats hw1))
    as (M1 & M2 & M3).
  fold (limit_channels_and_rates clock_rates rate_bit limit formats hw1) in M1, M2, M3.
  fold hw2 in M1, M2, M3.
  destruct (limit_loop_char clock_rates rate_bit formats hw Hf)
    as (B1 & _ & _ & _ & _ & E1).
  destruct (limit_loop_char clock_rates rate_bit formats hw1 Hf)
    as (B2 & _ & _ & _ & _ & E2).
  rewrite <- L1 in B1. rewrite <- L2, <- L3 in E1.
  rewrite <- M1 in B2. rewrite <- M2, <- M3 in E2.
  rewrite <- E1 in E2. injection E2 as E2a E2b.
  split; [|split; [|split; assumption]].
  - intros n H. apply B1. now left.
  - apply testbit_true_iff_eq. intros n. rewrite B2. split.
    + intros [H|H]; [assumption|]. apply B1. now right.
    + intros H. now left.
Qed.

Lemma limit_channels_and_rates_idempotent_witness :
  hw_rates
    (limit_channels_and_rates scenario_clock_rates known_rate_to_rate_bit
       limit_hw_rates_by_mask scenario_formats
       (limit_channels_and_rates scenario_clock_rates known_rate_to_rate_bit
          limit_hw_rates_by_mask scenario_formats blank_hardware)) =
  hw_rates
    (limit_channels_and_rates scenario_clock_rates known_rate_to_rate_bit
       limit_hw_rates_by_mask scenario_formats blank_hardware).
Proof.
  destruct scenario_table_wf as [_ Hf].
  exact (proj1 (proj2 (limit_channels_and_rates_idempotent scenario_clock_rates
                         known_rate_to_rate_bit limit_hw_rates_by_mask
                         scenario_formats blank_hardware Hf
                         limit_hw_rates_by_mask_frame))).
Defined.

Lemma limit_window_covers (clock_rates : list Z) (rate_bit : Z -> Z)
  (limit : snd_pcm_hardware -> snd_pcm_hardware)
  (formats : snd_motu_packet_format) (hw : snd_pcm_hardware) :
  wf_formats clock_rates formats ->
  (forall h, hw_rates (limit h) = hw_rates h /\
             hw_channels_min (limit h) = hw_channels_min h /\
             hw_channels_max (limit h) = hw_channels_max h) ->
  let hw' := limit_channels_and_rates clock_rates rate_bit limit formats hw in
  forall i, entry_has_channels clock_rates formats i ->
    Z.land (hw_rates hw') (rate_bit (nth i clock_rates 0)) =
      rate_bit (nth i clock_rates 0) /\
    hw_channels_min hw' <= total_channels formats (i / 2) <= hw_channels_max hw'.
Proof.
  intros Hf Hl hw' i Hi.
  destruct (Hl (limit_channels_and_rates_loop clock_rates rate_bit formats hw))
    as (L1 & L2 & L3).
  fold (limit_channels_and_rates clock_rates rate_bit limit formats hw) in L1, L2, L3.
  fold hw' in L1, L2, L3.
  destruct (limit_loop_char clock_rates rate_bit formats hw Hf) as (B & Hb & _).
  rewrite <- L1 in B. rewrite <- L2, <- L3 in Hb.
  split; [|now apply Hb].
  apply Z.bits_inj'. intros n _. rewrite Z.land_spec.
  destruct (Z.testbit (rate_bit (nth i clock_rates 0)) n) eqn:Tb;
    [|apply andb_false_r].
  rewrite andb_true_r. apply B. right. now exists i.
Qed.

(** X7. The hardware description [init_hw_info] leaves on a substream is
    built from the packet formats of the substream's own direction: the tx
    formats for capture, the rx formats for playback.  On every return
    path, also the failing ones, each mode of those formats that has
    channels has its rates in the mask and its channel count within the
    channel bounds, provided the framework's rate limiting and the stream
    layer's constraints leave the mask and the channel bounds alone.  The
    direction, state and rate of the substream are not touched. *)
Theorem init_hw_info_window_by_direction
  (env : Motu.collaborators) (motu : Motu.snd_motu)
  (substream : Motu.snd_pcm_substream) :
  let formats :=
    match Motu.stream substream with
    | Motu.SNDRV_PCM_STREAM_CAPTURE => Motu.tx_packet_formats motu
    | Motu.SNDRV_PCM_STREAM_PLAYBACK => Motu.rx_packet_formats motu
    end in
  wf_formats (Motu.snd_motu_clock_rates env) formats ->
  (forall h,
     hw_rates (Motu.snd_pcm_limit_hw_rates env h) = hw_rates h /\
     hw_channels_min (Motu.snd_pcm_limit_hw_rates env h) = hw_channels_min h /\
     hw_channels_max (Motu.snd_pcm_limit_hw_rates env h) = hw_channels_max h) ->
  (forall d h,
     hw_rates (snd (Motu.amdtp_motu_add_pcm_hw_constraints env d h)) =
       hw_rates h /\
     hw_channels_min (snd (Motu.amdtp_motu_add_pcm_hw_constraints env d h)) =
       hw_channels_min h /\
     hw_channels_max (snd (Motu.amdtp_motu_add_pcm_hw_constraints env d h)) =
       hw_channels_max h) ->
  let substream' := snd (Motu.init_hw_info env motu substream) in
  Motu.stream substream' = Motu.stream substream /\
  Motu.state substream' = Motu.state substream /\
  Motu.rate substream' = Motu.rate substream /\
  forall i,
    entry_has_channels (Motu.snd_motu_clock_rates env) formats i ->
    Z.land (hw_rates (Motu.hw substream'))
      (Motu.snd_pcm_rate_to_rate_bit env (nth i (Motu.snd_motu_clock_rates env) 0)) =
      Motu.snd_pcm_rate_to_rate_bit env (nth i (Motu.snd_motu_clock_rates env) 0) /\
    hw_channels_min (Motu.hw substream') <= total_channels formats (i / 2)
      <= hw_channels_max (Motu.hw substream').
Proof.
  intros formats Hf Hl Ha substream'.
  subst substream'.
  set (h0 := mk_hardware (Motu.SNDRV_PCM_FMTBIT_S32 env)
               (hw_rates (Motu.hw substream)) (hw_rate_min (Motu.hw substream))
               (hw_rate_max (Motu.hw substream))
               (hw_channels_min (Motu.hw substream))
               (hw_channels_max (Motu.hw substream))).
  pose proof (limit_window_covers (Motu.snd_motu_clock_rates env)
                (Motu.snd_pcm_rate_to_rate_bit env)
                (Motu.snd_pcm_limit_hw_rates env) formats h0 Hf Hl) as Hc.
  cbn zeta in Hc.
  set (h1 := limit_channels_and_rates (Motu.snd_motu_clock_rates env)
               (Motu.snd_pcm_rate_to_rate_bit env)
               (Motu.snd_pcm_limit_hw_rates env) formats h0) in *.
  assert (R : Motu.init_hw_info env motu substream =
              (let err := Motu.snd_pcm_hw_rule_add env Motu.SNDRV_PCM_HW_PARAM_RATE in
               if err <? 0 then (err, Motu.set_hw substream h1)
               else
                 let err := Motu.snd_pcm_hw_rule_add env
                              Motu.SNDRV_PCM_HW_PARAM_CHANNELS in
                 if err <? 0 then (err, Motu.set_hw substream h1)
                 else
                   let '(err, h) :=
                     Motu.amdtp_motu_add_pcm_hw_constraints env
                       (Motu.stream substream) h1 in
                   (err, Motu.set_hw substream h))).
  { unfold Motu.init_hw_info. subst h1 h0 formats.
    destruct (Motu.stream substream); reflexivity. }
  rewrite R. clear R. cbn zeta.
  destruct (Motu.snd_pcm_hw_rule_add env Motu.SNDRV_PCM_HW_PARAM_RATE <? 0).
  { cbn. repeat split; apply Hc; assumption. }
  destruct (Motu.snd_pcm_hw_rule_add env Motu.SNDRV_PCM_HW_PARAM_CHANNELS <? 0).
  { cbn. repeat split; apply Hc; assumption. }
  destruct (Ha (Motu.stream substream) h1) as (A1 & A2 & A3).
  destruct (Motu.amdtp_motu_add_pcm_hw_constraints env (Motu.stream substream) h1)
    as [err h2].
  cbn [snd] in A1, A2, A3. cbn [snd Motu.set_hw Motu.stream Motu.state Motu.rate Motu.hw].
  rewrite A1, A2, A3.
  repeat split; apply Hc; assumption.
Qed.

Lemma init_hw_info_window_by_direction_witness :
  let motu := Motu.mk_motu false false 0 false 0 false false
                scenario_formats (mk_packet_format [8; 4] [0; 0]) in
  let env := scenario_env (0, Motu.SND_MOTU_CLOCK_SOURCE_INTERNAL) (0, 48000) in
  hw_channels_min
    (Motu.hw (snd (Motu.init_hw_info env motu
                     (playback_substream Motu.SNDRV_PCM_STATE_OPEN)))) <= 8 <=
  hw_channels_max
    (Motu.hw (snd (Motu.init_hw_info env motu
                     (playback_substream Motu.SNDRV_PCM_STATE_OPEN)))).
Proof.
  cbv zeta.
  assert (Hf : wf_formats scenario_clock_rates (mk_packet_format [8; 4] [0; 0])).
  { unfold wf_formats, scenario_clock_rates.
    cbn [fixed_part_pcm_chunks differed_part_pcm_chunks length].
    repeat split; try lia; repeat constructor; lia. }
  pose proof (init_hw_info_window_by_direction
                (scenario_env (0, Motu.SND_MOTU_CLOCK_SOURCE_INTERNAL) (0, 48000))
                (Motu.mk_motu false false 0 false 0 false false
                   scenario_formats (mk_packet_format [8; 4] [0; 0]))
                (playback_substream Motu.SNDRV_PCM_STATE_OPEN)
                Hf limit_hw_rates_by_mask_frame
                (fun _ h => conj eq_refl (conj eq_refl eq_refl))) as H.
  cbv zeta in H. destruct H as (_ & _ & _ & H).
  apply (H 0%nat). split; [cbn; lia|cbn; lia].
Defined.

(** * Further properties of the PCM handlers *)

(** X8. [pcm_open] never leaks what it takes.  With the lock of spec 4.4:
    when it fails, on whichever path, the token is in the state it was in
    before the call; it can only succeed when the token was free; and it
    never returns with the mutex held. *)
Theorem pcm_open_never_leaks
  (transport_start : Z -> Z) (env : Motu.collaborators)
  (substream : Motu.snd_pcm_substream) (motu : Motu.snd_motu) :
  let r := Motu.pcm_open (Motu.spec_stream_ops transport_start) env
             substream motu in
  (fst (fst r) < 0 -> Motu.dev_lock (snd r) = Motu.dev_lock motu) /\
  (0 <= fst (fst r) -> Motu.dev_lock motu = false) /\
  (Motu.mutex motu = false -> Motu.mutex (snd r) = false).
Proof.
  cbn zeta. unfold Motu.pcm_open, Motu.err_locked.
  cbn [Motu.snd_motu_stream_lock_try Motu.snd_motu_stream_lock_release
       Motu.spec_stream_ops].
  unfold Motu.try_acquire.
  destruct (Motu.dev_lock motu) eqn:L.
  - cbn. repeat split; unfold EBUSY; try lia; auto.
  - cbn [Z.ltb Z.compare].
    split_handler; cbn [fst snd Motu.release Motu.set_dev_lock Motu.mutex_unlock
                        Motu.set_mutex Motu.dev_lock Motu.mutex];
      repeat split; intros; try reflexivity;
      rewrite ?Z.ltb_lt, ?Z.ltb_ge in *; lia.
Qed.

Lemma pcm_open_never_leaks_witness :
  let r := Motu.pcm_open (Motu.spec_stream_ops working_transport)
             (scenario_env (- EIO, Motu.SND_MOTU_CLOCK_SOURCE_INTERNAL) (0, 48000))
             (capture_substream Motu.SNDRV_PCM_STATE_OPEN) motu_idle in
  fst (fst r) = - EIO /\
  Motu.dev_lock (snd r) = Motu.dev_lock motu_idle /\
  Motu.mutex (snd r) = false.
Proof.
  cbv zeta.
  pose proof (pcm_open_never_leaks working_transport
                (scenario_env (- EIO, Motu.SND_MOTU_CLOCK_SOURCE_INTERNAL)
                   (0, 48000))
                (capture_substream Motu.SNDRV_PCM_STATE_OPEN) motu_idle) as H.
  cbv zeta in H. destruct H as (H1 & _ & H3).
  split; [reflexivity|]. split.
  - apply H1. vm_compute. reflexivity.
  - apply H3. reflexivity.
Defined.

(** X9. [pcm_open] neither counts the substream nor touches the duplex
    stream: provided the refresh of the packet formats leaves the token,
    the counter and the stream state alone, the counter, [running] and the
    committed rate are the same after the call on every path, and after a
    successful call the token is held and the mutex is free. *)
Theorem pcm_open_keeps_stream_state
  (transport_start : Z -> Z) (env : Motu.collaborators)
  (substream : Motu.snd_pcm_substream) (motu : Motu.snd_motu) :
  (forall m,
     let m' := snd (Motu.snd_motu_stream_cache_packet_formats env m) in
     Motu.dev_lock m' = Motu.dev_lock m /\
     Motu.substreams_counter m' = Motu.substreams_counter m /\
     Motu.running m' = Motu.running m /\
     Motu.committed_rate m' = Motu.committed_rate m) ->
  let r := Motu.pcm_open (Motu.spec_stream_ops transport_start) env
             substream motu in
  Motu.substreams_counter (snd r) = Motu.substreams_counter motu /\
  Motu.running (snd r) = Motu.running motu /\
  Motu.committed_rate (snd r) = Motu.committed_rate motu /\
  (0 <= fst (fst r) ->
   Motu.dev_lock (snd r) = true /\ Motu.mutex (snd r) = false).
Proof.
  intros Hc. cbn zeta. unfold Motu.pcm_open, Motu.err_locked.
  cbn [Motu.snd_motu_stream_lock_try Motu.snd_motu_stream_lock_release
       Motu.spec_stream_ops].
  unfold Motu.try_acquire.
  destruct (Motu.dev_lock motu) eqn:L.
  - cbn. repeat split; unfold EBUSY; lia.
  - cbn [Z.ltb Z.compare].
    specialize (Hc (Motu.mutex_lock (Motu.set_dev_lock motu true))).
    cbn zeta in Hc.
    destruct (Motu.snd_motu_stream_cache_packet_formats env
                (Motu.mutex_lock (Motu.set_dev_lock motu true)))
      as [e_cache motu2].
    cbn [snd Motu.mutex_lock Motu.set_mutex Motu.set_dev_lock Motu.dev_lock
         Motu.substreams_counter Motu.running Motu.committed_rate] in Hc.
    destruct Hc as (C1 & C2 & C3 & C4).
    split_handler; cbn [fst snd Motu.release Motu.set_dev_lock Motu.mutex_unlock
                        Motu.set_mutex Motu.dev_lock Motu.mutex
                        Motu.substreams_counter Motu.running
                        Motu.committed_rate];
      repeat split; intros; try assumption; try reflexivity;
      rewrite ?Z.ltb_lt, ?Z.ltb_ge in *; lia.
Qed.

Lemma pcm_open_keeps_stream_state_witness :
  let motu := Motu.mk_motu false false 2 true 96000 true false
                scenario_formats scenario_formats in
  let r := Motu.pcm_open (Motu.spec_stream_ops working_transport)
             (scenario_env (0, Motu.SND_MOTU_CLOCK_SOURCE_INTERNAL) (0, 96000))
             (playback_substream Motu.SNDRV_PCM_STATE_OPEN) motu in
  Motu.substreams_counter (snd r) = 2 /\
  Motu.running (snd r) = true /\
  Motu.dev_lock (snd r) = true /\ Motu.mutex (snd r) = false.
Proof.
  cbv zeta.
  pose proof (pcm_open_keeps_stream_state working_transport
                (scenario_env (0, Motu.SND_MOTU_CLOCK_SOURCE_INTERNAL) (0, 96000))
                (playback_substream Motu.SNDRV_PCM_STATE_OPEN)
                (Motu.mk_motu false false 2 true 96000 true false
                   scenario_formats scenario_formats)
                (fun _ => conj eq_refl (conj eq_refl (conj eq_refl eq_refl))))
    as H.
  cbv zeta in H. destruct H as (H1 & H2 & _ & H4).
  split; [exact H1|]. split; [exact H2|].
  apply H4. vm_compute. discriminate.
Defined.

(** ** Lifecycle of the MOTU duplex stream *)

Lemma motu_prepare_spec (transport_start : Z -> Z) (env : Motu.collaborators)
  (substream : Motu.snd_pcm_substream) (motu : Motu.snd_motu) :
  (forall d m,
     Motu.substreams_counter (Motu.amdtp_stream_pcm_prepare env d m) =
       Motu.substreams_counter m /\
     Motu.running (Motu.amdtp_stream_pcm_prepare env d m) = Motu.running m /\
     Motu.committed_rate (Motu.amdtp_stream_pcm_prepare env d m) =
       Motu.committed_rate m) ->
  let ops := Motu.spec_stream_ops transport_start in
  let started :=
    Motu.running motu || (0 <=? transport_start (Motu.rate substream)) in
  let result :=
    if Motu.running motu then 0
    else if transport_start (Motu.rate substream) <? 0
         then transport_start (Motu.rate substream) else 0 in
  let committed :=
    if Motu.running motu then Motu.committed_rate motu
    else if transport_start (Motu.rate substream) <? 0
         then Motu.committed_rate motu else Motu.rate substream in
  forall prepare,
    prepare = Motu.capture_prepare ops env \/
    prepare = Motu.playback_prepare ops env ->
    Motu.substreams_counter (snd (prepare substream motu)) =
      Motu.substreams_counter motu /\
    Motu.running (snd (prepare substream motu)) = started /\
    Motu.committed_rate (snd (prepare substream motu)) = committed /\
    fst (Motu.playback_prepare ops env substream motu) = result.
Proof.
  intros Hp ops started result committed prepare Hprep.
  subst ops started result committed.
  assert (Hboth :
    forall d,
      let m' :=
        snd (let '(err, m) :=
               Motu.ensure_started transport_start (Motu.mutex_lock motu)
                 (Motu.rate substream) in
             (err, if 0 <=? err
                   then Motu.amdtp_stream_pcm_prepare env d (Motu.mutex_unlock m)
                   else Motu.mutex_unlock m)) in
      Motu.substreams_counter m' = Motu.substreams_counter motu /\
      Motu.running m' =
        Motu.running motu || (0 <=? transport_start (Motu.rate substream)) /\
      Motu.committed_rate m' =
        (if Motu.running motu then Motu.committed_rate motu
         else if transport_start (Motu.rate substream) <? 0
              then Motu.committed_rate motu else Motu.rate substream)).
  { intros d. cbn zeta. unfold Motu.ensure_started.
    cbn [Motu.running Motu.mutex_lock Motu.set_mutex].
    destruct (Motu.running motu) eqn:R.
    - cbn [fst snd Z.leb Z.compare orb].
      match goal with
      | |- context [Motu.amdtp_stream_pcm_prepare env ?d ?m] =>
          destruct (Hp d m) as (P1 & P2 & P3); rewrite P1, P2, P3
      end. cbn. rewrite R. repeat split.
    - destruct (Z.ltb_spec (transport_start (Motu.rate substream)) 0) as [N|P].
      + replace (0 <=? transport_start (Motu.rate substream)) with false
          by (symmetry; apply Z.leb_gt; lia).
        cbn. rewrite R. repeat split.
      + cbn [fst snd Z.leb Z.compare orb].
        replace (0 <=? transport_start (Motu.rate substream)) with true
          by (symmetry; apply Z.leb_le; lia).
        match goal with
        | |- context [Motu.amdtp_stream_pcm_prepare env ?d ?m] =>
            destruct (Hp d m) as (P1 & P2 & P3); rewrite P1, P2, P3
        end. cbn. repeat split. }
  assert (Hres :
    fst (Motu.playback_prepare (Motu.spec_stream_ops transport_start) env
           substream motu) =
    (if Motu.running motu then 0
     else if transport_start (Motu.rate substream) <? 0
          then transport_start (Motu.rate substream) else 0)).
  { unfold Motu.playback_prepare.
    cbn [Motu.snd_motu_stream_start_duplex Motu.spec_stream_ops].
    unfold Motu.ensure_started.
    cbn [Motu.running Motu.mutex_lock Motu.set_mutex].
    destruct (Motu.running motu); [reflexivity|].
    destruct (transport_start (Motu.rate substream) <? 0); reflexivity. }
  destruct Hprep as [-> | ->].
  - destruct (Hboth Motu.SNDRV_PCM_STREAM_CAPTURE) as (H1 & H2 & H3).
    cbn zeta in H1, H2, H3.
    unfold Motu.capture_prepare.
    cbn [Motu.snd_motu_stream_start_duplex Motu.spec_stream_ops].
    destruct (Motu.ensure_started transport_start (Motu.mutex_lock motu)
                (Motu.rate substream)) as [err m].
    cbn [snd] in H1, H2, H3 |- *. repeat split; assumption.
  - destruct (Hboth Motu.SNDRV_PCM_STREAM_PLAYBACK) as (H1 & H2 & H3).
    cbn zeta in H1, H2, H3.
    unfold Motu.playback_prepare in Hres |- *.
    cbn [Motu.snd_motu_stream_start_duplex Motu.spec_stream_ops] in Hres |- *.
    destruct (Motu.ensure_started transport_start (Motu.mutex_lock motu)
                (Motu.rate substream)) as [err m].
    cbn [snd] in H1, H2, H3 |- *. repeat split; assumption.
Qed.

(** X10. One full use of the duplex stream by a single substream, with
    the lock and lifecycle functions of spec 4.4 and 4.5 and a transport
    that starts: on a device with no counted substream and an idle stream,
    [hw_params] from the OPEN state counts the substream, prepare (of
    either direction) starts the stream at the substream's rate, and the
    [hw_free] of the substream, by then out of OPEN, brings the counter
    back to zero and stops the stream. *)
Theorem motu_stream_cycle
  (transport_start : Z -> Z) (env : Motu.collaborators)
  (substream substream' : Motu.snd_pcm_substream)
  (hw_params : snd_pcm_hw_params) (motu : Motu.snd_motu) :
  (forall d m,
     Motu.substreams_counter (Motu.amdtp_stream_pcm_prepare env d m) =
       Motu.substreams_counter m /\
     Motu.running (Motu.amdtp_stream_pcm_prepare env d m) = Motu.running m /\
     Motu.committed_rate (Motu.amdtp_stream_pcm_prepare env d m) =
       Motu.committed_rate m) ->
  Motu.substreams_counter motu = 0 ->
  Motu.running motu = false ->
  Motu.state substream = Motu.SNDRV_PCM_STATE_OPEN ->
  0 <= Motu.snd_pcm_lib_alloc_vmalloc_buffer env substream hw_params ->
  Motu.state substream' <> Motu.SNDRV_PCM_STATE_OPEN ->
  0 <= transport_start (Motu.rate substream') ->
  let ops := Motu.spec_stream_ops transport_start in
  forall prepare,
    prepare = Motu.capture_prepare ops env \/
    prepare = Motu.playback_prepare ops env ->
    let motu1 := snd (Motu.hw_params_op env substream hw_params motu) in
    let motu2 := snd (prepare substream' motu1) in
    let motu3 := snd (Motu.hw_free_op ops env substream' motu2) in
    Motu.substreams_counter motu1 = 1 /\ Motu.running motu1 = false /\
    Motu.substreams_counter motu2 = 1 /\ Motu.running motu2 = true /\
    Motu.committed_rate motu2 = Motu.rate substream' /\
    Motu.substreams_counter motu3 = 0 /\ Motu.running motu3 = false.
Proof.
  intros Hp Hc Hr Ho Ha Hn Ht ops prepare Hprep motu1 motu2 motu3.
  assert (C1 : Motu.substreams_counter motu1 = 1).
  { subst motu1. rewrite motu_hw_params_spec.
    apply is_state_open_iff in Ho. rewrite Ho.
    replace (0 <=? _) with true by (symmetry; apply Z.leb_le; lia).
    cbn [andb]. rewrite Hc. reflexivity. }
  assert (R1 : Motu.running motu1 = false).
  { subst motu1. unfold Motu.hw_params_op, Motu.capture_hw_params,
      Motu.playback_hw_params.
    destruct (Motu.stream substream); split_handler; cbn; assumption. }
  destruct (motu_prepare_spec transport_start env substream' motu1 Hp
              prepare Hprep) as (C2 & R2 & K2 & _).
  fold motu2 in C2, R2, K2. rewrite R1 in R2, K2. rewrite C1 in C2.
  replace (0 <=? transport_start (Motu.rate substream')) with true in R2
    by (symmetry; apply Z.leb_le; lia).
  rewrite (ltb_neg_false _ Ht) in K2. cbn [orb] in R2.
  destruct (motu_hw_free_spec transport_start env substream' motu2)
    as (C3 & R3 & _).
  fold ops in C3, R3. fold motu3 in C3, R3.
  assert (E : Motu.is_state_open (Motu.state substream') = false).
  { destruct (Motu.is_state_open (Motu.state substream')) eqn:E;
      [|reflexivity]. apply is_state_open_iff in E. contradiction. }
  rewrite E, C2 in C3, R3. cbn in C3, R3.
  repeat split; assumption.
Qed.

Lemma motu_stream_cycle_witness :
  let ops := Motu.spec_stream_ops working_transport in
  let env := scenario_env (0, Motu.SND_MOTU_CLOCK_SOURCE_INTERNAL) (0, 48000) in
  let params := mk_hw_params (closed_interval 2 2) (closed_interval 48000 48000) in
  let motu1 :=
    snd (Motu.hw_params_op env (playback_substream Motu.SNDRV_PCM_STATE_OPEN)
           params motu_idle) in
  let motu2 :=
    snd (Motu.playback_prepare ops env
           (playback_substream Motu.SNDRV_PCM_STATE_SETUP) motu1) in
  let motu3 :=
    snd (Motu.hw_free_op ops env
           (playback_substream Motu.SNDRV_PCM_STATE_PREPARED) motu2) in
  Motu.running motu2 = true /\ Motu.committed_rate motu2 = 48000 /\
  Motu.substreams_counter motu3 = 0 /\ Motu.running motu3 = false.
Proof.
  cbv zeta.
  assert (P0 : 0 <= 0) by lia.
  pose proof (motu_stream_cycle working_transport
                (scenario_env (0, Motu.SND_MOTU_CLOCK_SOURCE_INTERNAL) (0, 48000))
                (playback_substream Motu.SNDRV_PCM_STATE_OPEN)
                (playback_substream Motu.SNDRV_PCM_STATE_PREPARED)
                (mk_hw_params (closed_interval 2 2) (closed_interval 48000 48000))
                motu_idle
                (fun _ _ => conj eq_refl (conj eq_refl eq_refl))
                eq_refl eq_refl eq_refl P0
                ltac:(discriminate) P0 _ (or_intror eq_refl)) as H.
  cbv zeta in H. destruct H as (_ & _ & _ & H2 & H3 & H4 & H5).
  repeat split; assumption.
Defined.

(** X11. With the lifecycle functions of spec 4.5, the handlers keep the
    stream from running without a counted substream.  Writing the
    invariant as "running implies counter > 0": [hw_params] keeps it
    unless the counter is at [UINT_MAX]; [hw_free] establishes it whatever
    the state before; a prepare of either direction keeps it when a
    substream is counted; [pcm_close] keeps it. *)
Theorem motu_running_implies_counted
  (transport_start : Z -> Z) (env : Motu.collaborators)
  (substream : Motu.snd_pcm_substream) (motu : Motu.snd_motu) :
  let ops := Motu.spec_stream_ops transport_start in
  let inv m := Motu.running m = true -> 0 < Motu.substreams_counter m in
  (forall hw_params,
     inv motu -> Motu.substreams_counter motu < UINT_MAX ->
     inv (snd (Motu.hw_params_op env substream hw_params motu))) /\
  (uint_range (Motu.substreams_counter motu) ->
   inv (snd (Motu.hw_free_op ops env substream motu))) /\
  ((forall d m,
      Motu.substreams_counter (Motu.amdtp_stream_pcm_prepare env d m) =
        Motu.substreams_counter m /\
      Motu.running (Motu.amdtp_stream_pcm_prepare env d m) = Motu.running m /\
      Motu.committed_rate (Motu.amdtp_stream_pcm_prepare env d m) =
        Motu.committed_rate m) ->
   0 < Motu.substreams_counter motu ->
   inv (snd (Motu.capture_prepare ops env substream motu)) /\
   inv (snd (Motu.playback_prepare ops env substream motu))) /\
  (inv motu -> inv (snd (Motu.pcm_close ops substream motu))).
Proof.
  intros ops inv. subst inv. cbn beta.
  split; [|split; [|split]].
  - intros hw_params Hi Hc.
    rewrite motu_hw_params_spec.
    assert (R : Motu.running
                  (snd (Motu.hw_params_op env substream hw_params motu)) =
                Motu.running motu).
    { unfold Motu.hw_params_op, Motu.capture_hw_params, Motu.playback_hw_params.
      destruct (Motu.stream substream); split_handler; reflexivity. }
    rewrite R. intros Hr. specialize (Hi Hr).
    destruct (_ && _); [|assumption].
    unfold to_uint. rewrite Z.mod_small; unfold UINT_MAX in Hc; lia.
  - intros Hu.
    destruct (motu_hw_free_spec transport_start env substream motu)
      as (C & R & _).
    fold ops in C, R. rewrite C, R.
    unfold uint_range, UINT_MAX in Hu.
    destruct (Motu.is_state_open (Motu.state substream)).
    + destruct (Motu.substreams_counter motu =? 0) eqn:E; [discriminate|].
      apply Z.eqb_neq in E. intros _. lia.
    + destruct (to_uint (Motu.substreams_counter motu - 1) =? 0) eqn:E;
        [discriminate|].
      apply Z.eqb_neq in E. intros _.
      pose proof (Z.mod_pos_bound (Motu.substreams_counter motu - 1)
                    4294967296 ltac:(lia)) as B.
      unfold to_uint in E |- *. lia.
  - intros Hp Hc. split.
    + destruct (motu_prepare_spec transport_start env substream motu Hp
                  (Motu.capture_prepare ops env) (or_introl eq_refl))
        as (C & _). rewrite C. intros _. exact Hc.
    + destruct (motu_prepare_spec transport_start env substream motu Hp
                  (Motu.playback_prepare ops env) (or_intror eq_refl))
        as (C & _). rewrite C. intros _. exact Hc.
  - intros Hi. cbn. exact Hi.
Qed.

Lemma motu_running_implies_counted_witness :
  let ops := Motu.spec_stream_ops working_transport in
  let env := scenario_env (0, Motu.SND_MOTU_CLOCK_SOURCE_INTERNAL) (0, 48000) in
  let motu := Motu.mk_motu true false 2 true 48000 false false
                scenario_formats scenario_formats in
  let motu' := snd (Motu.hw_free_op ops env
                      (capture_substream Motu.SNDRV_PCM_STATE_PREPARED) motu) in
  Motu.running motu' = true /\ 0 < Motu.substreams_counter motu'.
Proof.
  cbv zeta.
  pose proof (motu_running_implies_counted working_transport
                (scenario_env (0, Motu.SND_MOTU_CLOCK_SOURCE_INTERNAL) (0, 48000))
                (capture_substream Motu.SNDRV_PCM_STATE_PREPARED)
                (Motu.mk_motu true false 2 true 48000 false false
                   scenario_formats scenario_formats)) as H.
  cbv zeta in H. destruct H as (_ & H & _).
  split; [reflexivity|].
  apply H; [unfold uint_range, UINT_MAX; cbn; lia|reflexivity].
Defined.

(** ** Lifecycle of the Dice duplex stream *)

Lemma dice_open_spec (transport_start : Z -> Z) (dice : Dice.snd_dice) :
  Dice.capture_open (Dice.spec_stream_ops transport_start) dice =
  (if Dice.dev_lock dice then (- EBUSY, dice)
   else if Dice.running dice
        then (0, Dice.mk_dice true (to_int (Dice.substreams_counter dice + 1))
                   true (Dice.committed_rate dice))
        else if transport_start 0 <? 0
             then (transport_start 0,
                   Dice.mk_dice false (to_int (Dice.substreams_counter dice + 1))
                     false (Dice.committed_rate dice))
             else (0, Dice.mk_dice true
                        (to_int (Dice.substreams_counter dice + 1)) true 0)) /\
  Dice.playback_open (Dice.spec_stream_ops transport_start) dice =
  Dice.capture_open (Dice.spec_stream_ops transport_start) dice.
Proof.
  split; [|reflexivity].
  unfold Dice.capture_open.
  cbn [Dice.snd_dice_stream_lock_try Dice.snd_dice_stream_start_duplex
       Dice.snd_dice_stream_lock_release Dice.spec_stream_ops].
  unfold Dice.try_acquire, Dice.ensure_started, Dice.atomic_inc, Dice.release.
  destruct dice as [l c r k]. cbn [Dice.dev_lock Dice.substreams_counter
                                   Dice.running Dice.committed_rate].
  destruct l; [reflexivity|]. cbn [Z.ltb Z.compare].
  destruct r; [reflexivity|].
  destruct (transport_start 0 <? 0) eqn:E; cbn; rewrite ?E; reflexivity.
Qed.

(** X12. A successful open followed by the close of the same substream
    restores the device, with the lock and lifecycle functions of spec 4.4
    and 4.5 and a transport that starts: from a device whose token is free
    and whose counter is [c >= 0], the open returns 0 with the token held,
    the counter at [c + 1] and the stream running; the close then frees the
    token, puts the counter back to [c] and leaves the stream running
    exactly when other substreams remain ([c <> 0]). *)
Theorem dice_open_close_round_trip
  (transport_start : Z -> Z) (dice : Dice.snd_dice) (dir : Dice.direction) :
  0 <= transport_start 0 ->
  Dice.dev_lock dice = false ->
  0 <= Dice.substreams_counter dice < 2147483647 ->
  let ops := Dice.spec_stream_ops transport_start in
  forall opener,
    opener = Dice.capture_open ops \/ opener = Dice.playback_open ops ->
    let opened := snd (opener dice) in
    let closed := Dice.close ops dir opened in
    fst (opener dice) = 0 /\
    Dice.dev_lock opened = true /\
    Dice.substreams_counter opened = Dice.substreams_counter dice + 1 /\
    Dice.running opened = true /\
    Dice.dev_lock closed = false /\
    Dice.substreams_counter closed = Dice.substreams_counter dice /\
    Dice.running closed = negb (Dice.substreams_counter dice =? 0).
Proof.
  intros Ht Hl Hc ops opener Hop opened closed.
  destruct (dice_open_spec transport_start dice) as (Eo & Ep).
  fold ops in Eo, Ep.
  assert (E : opener dice =
              (0, Dice.mk_dice true (Dice.substreams_counter dice + 1) true
                    (if Dice.running dice then Dice.committed_rate dice else 0))).
  { assert (E0 : opener dice = Dice.capture_open ops dice).
    { destruct Hop as [-> | ->]; [reflexivity|exact Ep]. }
    rewrite E0, Eo, Hl, (ltb_neg_false _ Ht).
    rewrite to_int_small by lia.
    destruct (Dice.running dice); reflexivity. }
  subst closed opened. rewrite E. cbn [fst snd]. unfold ops.
  rewrite dice_close_spec.
  unfold Dice.release, Dice.ensure_stopped, Dice.atomic_dec.
  cbn [Dice.dev_lock Dice.substreams_counter Dice.running Dice.committed_rate].
  replace (Dice.substreams_counter dice + 1 - 1)
    with (Dice.substreams_counter dice) by lia.
  rewrite to_int_small by lia.
  destruct (Dice.substreams_counter dice =? 0); repeat split.
Qed.

Lemma dice_open_close_round_trip_witness :
  let ops := Dice.spec_stream_ops working_transport in
  let opened := snd (Dice.playback_open ops dice_idle) in
  let closed := Dice.close ops Dice.Playback opened in
  Dice.running opened = true /\
  Dice.dev_lock closed = false /\
  Dice.substreams_counter closed = 0 /\
  Dice.running closed = false.
Proof.
  cbv zeta.
  assert (P0 : 0 <= 0) by lia.
  assert (P1 : 0 <= 0 < 2147483647) by lia.
  pose proof (dice_open_close_round_trip working_transport dice_idle
                Dice.Playback P0 eq_refl P1 _ (or_intror eq_refl)) as H.
  cbv zeta in H. destruct H as (_ & _ & _ & H1 & H2 & H3 & H4).
  repeat split; assumption.
Defined.

(** X13. With the lifecycle functions of spec 4.5 the four rawmidi
    handlers keep the stream from running without a counted substream
    ("running implies counter > 0"): the opens keep the invariant when the
    counter is non-negative and below [INT_MAX], the closes keep it when
    the counter is in the range of [int]. *)
Theorem dice_running_implies_counted
  (transport_start : Z -> Z) (dice : Dice.snd_dice) :
  let ops := Dice.spec_stream_ops transport_start in
  let inv d := Dice.running d = true -> 0 < Dice.substreams_counter d in
  inv dice ->
  (0 <= Dice.substreams_counter dice < 2147483647 ->
   inv (snd (Dice.capture_open ops dice)) /\
   inv (snd (Dice.playback_open ops dice))) /\
  (-2147483648 <= Dice.substreams_counter dice <= 2147483647 ->
   inv (snd (Dice.capture_close ops dice)) /\
   inv (snd (Dice.playback_close ops dice))).
Proof.
  intros ops inv Hi. subst inv. cbn beta in *. split.
  - intros Hc.
    destruct (dice_open_spec transport_start dice) as (Eo & Ep).
    fold ops in Eo, Ep. rewrite Ep, Eo.
    assert (G : Dice.running (snd (
                  if Dice.dev_lock dice then (- EBUSY, dice)
                  else if Dice.running dice
                       then (0, Dice.mk_dice true
                                  (to_int (Dice.substreams_counter dice + 1))
                                  true (Dice.committed_rate dice))
                       else if transport_start 0 <? 0
                            then (transport_start 0,
                                  Dice.mk_dice false
                                    (to_int (Dice.substreams_counter dice + 1))
                                    false (Dice.committed_rate dice))
                            else (0, Dice.mk_dice true
                                       (to_int (Dice.substreams_counter dice + 1))
                                       true 0))) = true ->
                0 < Dice.substreams_counter (snd (
                  if Dice.dev_lock dice then (- EBUSY, dice)
                  else if Dice.running dice
                       then (0, Dice.mk_dice true
                                  (to_int (Dice.substreams_counter dice + 1))
                                  true (Dice.committed_rate dice))
                       else if transport_start 0 <? 0
                            then (transport_start 0,
                                  Dice.mk_dice false
                                    (to_int (Dice.substreams_counter dice + 1))
                                    false (Dice.committed_rate dice))
                            else (0, Dice.mk_dice true
                                       (to_int (Dice.substreams_counter dice + 1))
                                       true 0)))).
    { rewrite to_int_small by lia.
      destruct (Dice.dev_lock dice); [exact Hi|].
      destruct (Dice.running dice); [cbn; intros _; lia|].
      destruct (transport_start 0 <? 0); cbn; [discriminate|intros _; lia]. }
    split; exact G.
  - intros Hc.
    assert (G : forall dir,
              Dice.running (Dice.close ops dir dice) = true ->
              0 < Dice.substreams_counter (Dice.close ops dir dice)).
    { intros dir. unfold ops. rewrite dice_close_spec.
      unfold Dice.release, Dice.ensure_stopped, Dice.atomic_dec.
      cbn [Dice.dev_lock Dice.substreams_counter Dice.running
           Dice.committed_rate].
      destruct (Z.eq_dec (Dice.substreams_counter dice) (-2147483648)) as [Em|Nm].
      - rewrite Em. cbn. intros _. lia.
      - rewrite to_int_small by lia.
        destruct (Dice.substreams_counter dice - 1 =? 0) eqn:E;
          cbn [Dice.running Dice.substreams_counter]; [discriminate|].
        apply Z.eqb_neq in E. intros Hr. specialize (Hi Hr). lia. }
    split; [exact (G Dice.Capture)|exact (G Dice.Playback)].
Qed.

Lemma dice_running_implies_counted_witness :
  let ops := Dice.spec_stream_ops working_transport in
  let dice := Dice.mk_dice true 2 true 48000 in
  Dice.running (snd (Dice.capture_close ops dice)) = true /\
  0 < Dice.substreams_counter (snd (Dice.capture_close ops dice)).
Proof.
  cbv zeta.
  assert (Hi : Dice.running (Dice.mk_dice true 2 true 48000) = true ->
               0 < Dice.substreams_counter (Dice.mk_dice true 2 true 48000))
    by (intros _; cbn; lia).
  assert (Hc : -2147483648 <=
               Dice.substreams_counter (Dice.mk_dice true 2 true 48000) <=
               2147483647) by (cbn; lia).
  pose proof (dice_running_implies_counted working_transport
                (Dice.mk_dice true 2 true 48000) Hi) as H.
  destruct H as (_ & H). destruct (H Hc) as (H1 & _).
  split; [reflexivity|]. apply H1. reflexivity.
Defined.

(** X14. What the increment kept by a failed open costs (lock and
    lifecycle functions of spec 4.4 and 4.5).  On a device whose token is
    free, whose stream is idle and whose counter is [c >= 0]: after an
    open whose start fails, a later open that succeeds and the close of
    that substream leave the counter at [c + 1] and the stream running.
    With [c = 0] no substream is open any more, yet the stream is never
    stopped. *)
Theorem dice_failed_open_blocks_stop
  (failing working : Z -> Z) (dice : Dice.snd_dice) (dir : Dice.direction) :
  failing 0 < 0 ->
  0 <= working 0 ->
  Dice.dev_lock dice = false ->
  Dice.running dice = false ->
  0 <= Dice.substreams_counter dice < 2147483646 ->
  forall opener,
    opener = Dice.capture_open \/ opener = Dice.playback_open ->
    let failed := opener (Dice.spec_stream_ops failing) dice in
    let opened := opener (Dice.spec_stream_ops working) (snd failed) in
    let closed := Dice.close (Dice.spec_stream_ops working) dir (snd opened) in
    fst failed = failing 0 /\
    fst opened = 0 /\
    Dice.dev_lock closed = false /\
    Dice.substreams_counter closed = Dice.substreams_counter dice + 1 /\
    Dice.running closed = true.
Proof.
  intros Hf Hw Hl Hr Hc opener Hop failed opened closed.
  assert (Ef : failed =
               (failing 0,
                Dice.mk_dice false (Dice.substreams_counter dice + 1) false
                  (Dice.committed_rate dice))).
  { subst failed.
    destruct (dice_open_spec failing dice) as (Eo & Ep).
    assert (E0 : opener (Dice.spec_stream_ops failing) dice =
                 Dice.capture_open (Dice.spec_stream_ops failing) dice).
    { destruct Hop as [-> | ->]; [reflexivity|exact Ep]. }
    rewrite E0, Eo, Hl, Hr, (ltb_neg_true _ Hf).
    now rewrite to_int_small by lia. }
  assert (Eo : opened =
               (0, Dice.mk_dice true (Dice.substreams_counter dice + 2) true 0)).
  { subst opened. rewrite Ef. cbn [snd].
    destruct (dice_open_spec working
                (Dice.mk_dice false (Dice.substreams_counter dice + 1) false
                   (Dice.committed_rate dice))) as (Eo & Ep).
    assert (E0 : forall d, opener (Dice.spec_stream_ops working) d =
                           Dice.capture_open (Dice.spec_stream_ops working) d).
    { intros d. destruct Hop as [-> | ->]; reflexivity. }
    rewrite E0, Eo.
    cbn [Dice.dev_lock Dice.running Dice.substreams_counter].
    rewrite (ltb_neg_false _ Hw). rewrite to_int_small by lia.
    do 2 f_equal. lia. }
  subst closed. rewrite Ef, Eo. cbn [fst snd].
  rewrite dice_close_spec.
  unfold Dice.release, Dice.ensure_stopped, Dice.atomic_dec.
  cbn [Dice.dev_lock Dice.substreams_counter Dice.running Dice.committed_rate].
  rewrite to_int_small by lia.
  replace (Dice.substreams_counter dice + 2 - 1 =? 0) with false
    by (symmetry; apply Z.eqb_neq; lia).
  cbn. repeat split. lia.
Qed.

Lemma dice_failed_open_blocks_stop_witness :
  let failed := Dice.capture_open (Dice.spec_stream_ops failing_transport)
                  dice_idle in
  let opened := Dice.capture_open (Dice.spec_stream_ops working_transport)
                  (snd failed) in
  let closed := Dice.close (Dice.spec_stream_ops working_transport)
                  Dice.Capture (snd opened) in
  fst failed = - EIO /\ fst opened = 0 /\
  Dice.dev_lock closed = false /\
  Dice.substreams_counter closed = 1 /\
  Dice.running closed = true.
Proof.
  cbv zeta.
  assert (Pf : failing_transport 0 < 0) by (vm_compute; reflexivity).
  assert (Pw : 0 <= working_transport 0) by (vm_compute; discriminate).
  assert (Pc : 0 <= Dice.substreams_counter dice_idle < 2147483646)
    by (cbn; lia).
  pose proof (dice_failed_open_blocks_stop failing_transport working_transport
                dice_idle Dice.Capture Pf Pw eq_refl eq_refl Pc
                Dice.capture_open (or_introl eq_refl)) as H.
  cbv zeta in H. exact H.
Defined.

(** * Creation of the Dice rawmidi device *)

Lemma nth_ports_range (ports : list Z) (i : nat) :
  Forall (fun p => 0 <= p <= 2147483647) ports ->
  0 <= nth i ports 0 <= 2147483647.
Proof.
  intros H. destruct (Nat.lt_ge_cases i (length ports)) as [Hi|Hi].
  - rewrite Forall_forall in H. apply H, nth_In, Hi.
  - rewrite nth_overflow by assumption. lia.
Qed.

Lemma midi_ports_max (dice : DiceMidi.snd_dice_ports) :
  DiceMidi.wf_ports dice ->
  DiceMidi.midi_ports dice =
    (DiceMidi.max_ports (DiceMidi.tx_midi_ports dice),
     DiceMidi.max_ports (DiceMidi.rx_midi_ports dice)) /\
  0 <= DiceMidi.max_ports (DiceMidi.tx_midi_ports dice) <= 2147483647 /\
  0 <= DiceMidi.max_ports (DiceMidi.rx_midi_ports dice) <= 2147483647.
Proof.
  intros (_ & _ & Ht & Hr).
  pose proof (nth_ports_range _ 0 Ht). pose proof (nth_ports_range _ 1 Ht).
  pose proof (nth_ports_range _ 2 Ht). pose proof (nth_ports_range _ 0 Hr).
  pose proof (nth_ports_range _ 1 Hr). pose proof (nth_ports_range _ 2 Hr).
  unfold DiceMidi.midi_ports, DiceMidi.max_ports.
  cbn [seq fold_left DiceMidi.midi_ports_step].
  split; [f_equal; lia|lia].
Qed.

Lemma to_uint_sum_zero (a b : Z) :
  0 <= a <= 2147483647 -> 0 <= b <= 2147483647 ->
  (to_uint (a + b) =? 0) = true <-> a = 0 /\ b = 0.
Proof.
  intros Ha Hb. unfold to_uint. rewrite Z.mod_small by lia.
  rewrite Z.eqb_eq. lia.
Qed.

(** X15. Whether a rawmidi device is created.  For port tables of three
    non-negative [int] entries per direction: when no mode has a MIDI port
    in either direction, [snd_dice_create_midi] returns 0 without asking
    the framework for a device; otherwise it asks for a device with as
    many output substreams as the largest rx entry and as many input
    substreams as the largest tx entry, returns the framework's error
    without a device when that fails, and returns 0 with a device when it
    succeeds. *)
Theorem create_midi_device_or_not
  (flag_out flag_in flag_duplex : Z)
  (snd_rawmidi_new : Z -> Z -> Z * DiceMidi.snd_rawmidi)
  (dice : DiceMidi.snd_dice_ports) :
  DiceMidi.wf_ports dice ->
  let created :=
    DiceMidi.snd_dice_create_midi flag_out flag_in flag_duplex
      snd_rawmidi_new dice in
  let outs := DiceMidi.max_ports (DiceMidi.rx_midi_ports dice) in
  let ins := DiceMidi.max_ports (DiceMidi.tx_midi_ports dice) in
  (forall i, (i < 3)%nat ->
     nth i (DiceMidi.tx_midi_ports dice) 0 <= ins /\
     nth i (DiceMidi.rx_midi_ports dice) 0 <= outs) /\
  ((forall i, (i < 3)%nat ->
      nth i (DiceMidi.tx_midi_ports dice) 0 = 0 /\
      nth i (DiceMidi.rx_midi_ports dice) 0 = 0) ->
   created = (0, None)) /\
  ((exists i, (i < 3)%nat /\
      (nth i (DiceMidi.tx_midi_ports dice) 0 <> 0 \/
       nth i (DiceMidi.rx_midi_ports dice) 0 <> 0)) ->
   (fst (snd_rawmidi_new outs ins) < 0 ->
    created = (fst (snd_rawmidi_new outs ins), None)) /\
   (0 <= fst (snd_rawmidi_new outs ins) ->
    fst created = 0 /\ snd created <> None)).
Proof.
  intros Hw created outs ins.
  destruct (midi_ports_max dice Hw) as (Em & Ri & Ro).
  fold ins in Em, Ri. fold outs in Em, Ro.
  destruct Hw as (_ & _ & Ht & Hr).
  pose proof (nth_ports_range _ 0 Ht) as T0.
  pose proof (nth_ports_range _ 1 Ht) as T1.
  pose proof (nth_ports_range _ 2 Ht) as T2.
  pose proof (nth_ports_range _ 0 Hr) as R0.
  pose proof (nth_ports_range _ 1 Hr) as R1.
  pose proof (nth_ports_range _ 2 Hr) as R2.
  assert (Mi : ins = Z.max (nth 0 (DiceMidi.tx_midi_ports dice) 0)
                       (Z.max (nth 1 (DiceMidi.tx_midi_ports dice) 0)
                              (nth 2 (DiceMidi.tx_midi_ports dice) 0)))
    by reflexivity.
  assert (Mo : outs = Z.max (nth 0 (DiceMidi.rx_midi_ports dice) 0)
                        (Z.max (nth 1 (DiceMidi.rx_midi_ports dice) 0)
                               (nth 2 (DiceMidi.rx_midi_ports dice) 0)))
    by reflexivity.
  subst created. unfold DiceMidi.snd_dice_create_midi. rewrite Em.
  split; [|split].
  - intros i Hi.
    destruct i as [|[|[|i]]]; [lia|lia|lia|lia].
  - intros Hz.
    destruct (Hz 0%nat ltac:(lia)) as [A0 B0].
    destruct (Hz 1%nat ltac:(lia)) as [A1 B1].
    destruct (Hz 2%nat ltac:(lia)) as [A2 B2].
    assert (Z0 : (to_uint (ins + outs) =? 0) = true).
    { apply to_uint_sum_zero; lia. }
    now rewrite Z0.
  - intros (i & Hi & Hnz).
    assert (Z0 : (to_uint (ins + outs) =? 0) = false).
    { destruct (to_uint (ins + outs) =? 0) eqn:E; [|reflexivity].
      apply to_uint_sum_zero in E; [|assumption|assumption].
      destruct i as [|[|[|i]]]; lia. }
    rewrite Z0.
    destruct (snd_rawmidi_new outs ins) as [err rmidi]. cbn [fst].
    split.
    + intros N. now rewrite (ltb_neg_true _ N).
    + intros P. rewrite (ltb_neg_false _ P). cbn [fst snd].
      split; [reflexivity|discriminate].
Qed.

Lemma create_midi_device_or_not_witness :
  DiceMidi.snd_dice_create_midi 1 2 4
    (fun _ _ => (- ENOMEM, DiceMidi.mk_rawmidi 0 None None))
    (DiceMidi.mk_ports [0; 0; 0] [0; 0; 0]) = (0, None) /\
  DiceMidi.snd_dice_create_midi 1 2 4
    (fun _ _ => (- ENOMEM, DiceMidi.mk_rawmidi 0 None None))
    (DiceMidi.mk_ports [1; 1; 0] [2; 1; 1]) = (- ENOMEM, None).
Proof.
  assert (W0 : DiceMidi.wf_ports (DiceMidi.mk_ports [0; 0; 0] [0; 0; 0])).
  { unfold DiceMidi.wf_ports. cbn. repeat split; repeat constructor; lia. }
  assert (W1 : DiceMidi.wf_ports (DiceMidi.mk_ports [1; 1; 0] [2; 1; 1])).
  { unfold DiceMidi.wf_ports. cbn. repeat split; repeat constructor; lia. }
  split.
  - apply (create_midi_device_or_not 1 2 4 _ _ W0).
    intros i Hi. destruct i as [|[|[|i]]]; cbn; try lia; now split.
  - refine (proj1 (proj2 (proj2 (create_midi_device_or_not 1 2 4
                                   (fun _ _ => (- ENOMEM, DiceMidi.mk_rawmidi 0 None None))
                                   _ W1)) _) _).
    + exists 0%nat. split; [lia|]. left. cbn. lia.
    + vm_compute. reflexivity.
Defined.

(** X16. What the created device advertises.  When the framework hands
    out a blank device and the three flag bits are non-zero and pairwise
    disjoint, the device [snd_dice_create_midi] registers has the INPUT
    flag and the capture operations exactly when some mode has a tx MIDI
    port, the OUTPUT flag and the playback operations exactly when some
    mode has an rx MIDI port, and the DUPLEX flag exactly when both
    hold. *)
Theorem create_midi_flags
  (flag_out flag_in flag_duplex : Z)
  (snd_rawmidi_new : Z -> Z -> Z * DiceMidi.snd_rawmidi)
  (dice : DiceMidi.snd_dice_ports) (rmidi : DiceMidi.snd_rawmidi) :
  DiceMidi.wf_ports dice ->
  flag_out <> 0 -> flag_in <> 0 -> flag_duplex <> 0 ->
  Z.land flag_out flag_in = 0 ->
  Z.land flag_out flag_duplex = 0 ->
  Z.land flag_in flag_duplex = 0 ->
  (forall outs ins,
     snd (snd_rawmidi_new outs ins) = DiceMidi.mk_rawmidi 0 None None) ->
  snd (DiceMidi.snd_dice_create_midi flag_out flag_in flag_duplex
         snd_rawmidi_new dice) = Some rmidi ->
  let outs := DiceMidi.max_ports (DiceMidi.rx_midi_ports dice) in
  let ins := DiceMidi.max_ports (DiceMidi.tx_midi_ports dice) in
  (Z.land (DiceMidi.info_flags rmidi) flag_in = flag_in <-> 0 < ins) /\
  (Z.land (DiceMidi.info_flags rmidi) flag_out = flag_out <-> 0 < outs) /\
  (Z.land (DiceMidi.info_flags rmidi) flag_duplex = flag_duplex <->
     0 < ins /\ 0 < outs) /\
  (DiceMidi.input_ops rmidi =
     if 0 <? ins then Some DiceMidi.capture_ops else None) /\
  (DiceMidi.output_ops rmidi =
     if 0 <? outs then Some DiceMidi.playback_ops else None).
Proof.
  intros Hw No Ni Nd Doi Dod Did Hblank Hsome outs ins.
  destruct (midi_ports_max dice Hw) as (Em & Ri & Ro).
  fold ins in Em, Ri. fold outs in Em, Ro.
  unfold DiceMidi.snd_dice_create_midi in Hsome. rewrite Em in Hsome.
  destruct (to_uint (ins + outs) =? 0); [discriminate Hsome|].
  specialize (Hblank outs ins).
  destruct (snd_rawmidi_new outs ins) as [err fresh]. cbn [snd] in Hblank.
  subst fresh.
  destruct (err <? 0); [discriminate Hsome|].
  cbn [snd] in Hsome. injection Hsome as <-.
  assert (Dio : Z.land flag_in flag_out = 0) by now rewrite Z.land_comm.
  assert (Ddo : Z.land flag_duplex flag_out = 0) by now rewrite Z.land_comm.
  assert (Ddi : Z.land flag_duplex flag_in = 0) by now rewrite Z.land_comm.
  destruct (Z.ltb_spec 0 ins) as [Pi|Zi];
    destruct (Z.ltb_spec 0 outs) as [Po|Zo];
    cbn [andb DiceMidi.info_flags DiceMidi.input_ops DiceMidi.output_ops];
    rewrite ?Z.lor_0_l, ?Z.land_lor_distr_l, ?Z.land_diag, ?Z.land_0_l,
      ?Doi, ?Dod, ?Did, ?Dio, ?Ddo, ?Ddi, ?Z.lor_0_l, ?Z.lor_0_r;
    repeat split; intros; try assumption; try reflexivity; try lia;
    try congruence.
Qed.

Lemma create_midi_flags_witness :
  snd (DiceMidi.snd_dice_create_midi 1 2 4
         (fun _ _ => (0, DiceMidi.mk_rawmidi 0 None None))
         (DiceMidi.mk_ports [0; 0; 0] [2; 1; 1])) =
    Some (DiceMidi.mk_rawmidi 1 None (Some DiceMidi.playback_ops)) /\
  ~ Z.land 1 4 = 4.
Proof.
  assert (W1 : DiceMidi.wf_ports (DiceMidi.mk_ports [0; 0; 0] [2; 1; 1])).
  { unfold DiceMidi.wf_ports. cbn. repeat split; repeat constructor; lia. }
  split; [reflexivity|].
  pose proof (create_midi_flags 1 2 4
                (fun _ _ => (0, DiceMidi.mk_rawmidi 0 None None))
                (DiceMidi.mk_ports [0; 0; 0] [2; 1; 1])
                (DiceMidi.mk_rawmidi 1 None (Some DiceMidi.playback_ops))
                W1 ltac:(discriminate) ltac:(discriminate) ltac:(discriminate)
                eq_refl eq_refl eq_refl (fun _ _ => eq_refl) eq_refl) as H.
  cbv zeta in H. destruct H as (_ & _ & H & _).
  intros E. apply H in E. destruct E as [E _]. vm_compute in E. discriminate E.
Defined.
